(** * CopyQ: the clipboard list model (src/clipboardmodel.cpp)

    A shallow embedding of [ClipboardModel] and of the free function
    [escape], followed by the properties of the model that the
    specification states.

    Conventions.
    - A C++ [int] is a [Z].  The only arithmetic of the code that can
      leave the range of [int] is [from+1] and [from-1] in [moveItems],
      at a selected row that is [INT_MAX] or [INT_MIN]; a statement
      that ranges over selections excludes these two rows, and says
      so.
    - A [QString] is a [string], a [QChar] an [ascii].
    - A method that changes the object takes the old value and returns
      the new one.  The function-local [static QMap] of [escape] lives
      across calls, so it is threaded through every function that
      reaches [escape].
    - Element access outside a [QList] has no defined behaviour; it is
      the outcome [OutOfRange].  Qt's debug-only assertions on signal
      arguments are not modelled, and signals carry no model state. *)

From Stdlib Require Import ZArith Lia Ascii String Sorted.
From stdpp Require Import base option list gmap strings.

Open Scope Z_scope.

(** ** Outcomes of a call *)

Inductive outcome (A : Type) : Type :=
| Done (x : A)
| OutOfRange
| OutOfFuel.
Arguments Done {A} x.
Arguments OutOfRange {A}.
Arguments OutOfFuel {A}.

#[global] Instance outcome_ret : MRet outcome := fun A x => Done x.
#[global] Instance outcome_bind : MBind outcome := fun A B f o =>
  match o with
  | Done x => f x
  | OutOfRange => OutOfRange
  | OutOfFuel => OutOfFuel
  end.

(** ** Qt value types *)

Abbreviation QChar := ascii (only parsing).
Abbreviation QString := string (only parsing).

Module QString.

Definition isEmpty (s : QString) : bool :=
  match s with "" => true | String _ _ => false end.

Definition length (s : QString) : Z := Z.of_nat (String.length s).

(** [QString::mid(position, n)]: [n] characters from [position]; all
    that are available when fewer are left or when [n] is negative
    (the default [-1]); nothing when [position] is past the end. *)
Definition mid (s : QString) (position n : Z) : QString :=
  let size := length s in
  if size <? position then ""
  else if position <? 0 then
    if (n <? 0) || (size <=? n + position) then s
    else if n + position <=? 0 then ""
    else substring 0 (Z.to_nat (n + position)) s
  else if (n <? 0) || (size - position <? n) then
    substring (Z.to_nat position) (Z.to_nat (size - position)) s
  else substring (Z.to_nat position) (Z.to_nat n) s.

End QString.

Module QList.
Section Ops.
Context {A : Type}.

Definition size (l : list A) : Z := Z.of_nat (List.length l).

Definition inRange (l : list A) (i : Z) : bool :=
  (0 <=? i) && (i <? size l).

(** [at(i)] and [operator[](i)] read. *)
Definition at_ (l : list A) (i : Z) : outcome A :=
  if inRange l i then
    match l !! Z.to_nat i with
    | Some x => Done x
    | None => OutOfRange
    end
  else OutOfRange.

(** [l[i].method()] and [replace(i, v)]: the element in place. *)
Definition modify (l : list A) (i : Z) (f : A → A) : outcome (list A) :=
  x ← at_ l i; Done (<[Z.to_nat i := f x]> l).

Definition replace (l : list A) (i : Z) (v : A) : outcome (list A) :=
  modify l i (fun _ => v).

Definition append (l : list A) (v : A) : list A := l ++ [v].


(** [removeAt(i)]: nothing happens outside the list. *)
Definition removeAt (l : list A) (i : Z) : list A :=
  if inRange l i then delete (Z.to_nat i) l else l.

(** [move(from, to)]: the element leaves [from] and is put back so
    that it sits at [to]; both must be rows of the list. *)
Definition move (l : list A) (from to : Z) : outcome (list A) :=
  if inRange l from && inRange l to then
    x ← at_ l from;
    let rest := delete (Z.to_nat from) l in
    Done (take (Z.to_nat to) rest ++ x :: drop (Z.to_nat to) rest)
  else OutOfRange.

End Ops.
End QList.

(** [QImage] carries pixels only; the model never looks inside. *)
Record QImage := { img_width : Z; img_height : Z; img_bits : list Z }.

Inductive QVariant :=
| VInvalid
| VString (s : QString)
| VImage (img : QImage).

Module QVariant.
Definition isImage (v : QVariant) : bool :=
  match v with VImage _ => true | _ => false end.
Definition toString (v : QVariant) : QString :=
  match v with VString s => s | _ => "" end.
Definition toImage (v : QVariant) : QImage :=
  match v with
  | VImage img => img
  | _ => {| img_width := 0; img_height := 0; img_bits := [] |}
  end.
End QVariant.

(** [QModelIndex]: row, column and whether it belongs to a model. *)
Record QModelIndex := { row : Z; column : Z; has_model : bool }.

Definition isValid (index : QModelIndex) : bool :=
  (0 <=? row index) && (0 <=? column index) && has_model index.

(** [operator<] on indexes of one list model. *)
Definition index_lt (x y : QModelIndex) : bool :=
  (row x <? row y) || ((row x =? row y) && (column x <? column y)).

Fixpoint sort_insert (x : QModelIndex) (l : list QModelIndex) : list QModelIndex :=
  match l with
  | [] => [x]
  | y :: l' => if index_lt y x then y :: sort_insert x l' else x :: l
  end.

Fixpoint qSort (l : list QModelIndex) : list QModelIndex :=
  match l with
  | [] => []
  | x :: l' => sort_insert x (qSort l')
  end.

Definition INT_MAX : Z := 2147483647.
Definition INT_MIN : Z := -2147483648.

Module Qt.
Definition DisplayRole : Z := 0.
Definition EditRole : Z := 2.
Definition Key_Home : Z := 0x01000010.
Definition Key_End : Z := 0x01000011.
Definition Key_Up : Z := 0x01000013.
Definition Key_Down : Z := 0x01000015.
Definition ItemIsSelectable : Z := 1.
Definition ItemIsEditable : Z := 2.
Definition ItemIsEnabled : Z := 32.
End Qt.

(** [QAbstractItemModel::beginMoveRows]: for a move inside one parent it
    refuses (returns false and announces nothing) a destination that
    lies in [sourceFirst .. sourceLast + 1], where the rows would land
    on themselves.  A list model has one level, so nothing else can make
    a move invalid. *)
Definition index_eqb (x y : QModelIndex) : bool :=
  (row x =? row y) && (column x =? column y) && bool_decide (has_model x = has_model y).

Definition beginMoveRows (sourceParent : QModelIndex) (sourceFirst sourceLast : Z)
    (destinationParent : QModelIndex) (destinationChild : Z) : bool :=
  if index_eqb sourceParent destinationParent
  then negb ((sourceFirst <=? destinationChild) && (destinationChild <=? sourceLast + 1))
  else true.

(** Modelled from the spec: [empty_index] is declared in the header,
    which is not among the sources; as its name and its use as the
    parent of top-level rows say, it is the invalid index
    [QModelIndex()]. *)
Definition empty_index : QModelIndex :=
  {| row := -1; column := -1; has_model := false |}.

(** ** [escape] *)

(** The static [QMap<QChar,QString> repl]. *)
Abbreviation Repl := (gmap ascii string) (only parsing).

Module QMap.
Definition isEmpty (repl : Repl) : bool := bool_decide (repl = ∅).

(** The non-const [operator[]]: an absent key is first entered with a
    default-constructed (empty) value. *)
Definition index (repl : Repl) (c : QChar) : Repl * QString :=
  match repl !! c with
  | Some v => (repl, v)
  | None => (<[c := ""%string]> repl, ""%string)
  end.
End QMap.

Definition repl_fill (repl : Repl) : Repl :=
  if QMap.isEmpty repl then
    <["&"%char := "&amp;"%string]>
    (<["<"%char := "&lt;"%string]>
    (<[">"%char := "&gt;"%string]>
    (<["010"%char := "<br />"%string]>
    (<["009"%char := "&nbsp;&nbsp;"%string]>
    (<[" "%char := "&nbsp;"%string]> repl)))))
  else repl.

Fixpoint escape_loop (repl : Repl) (it : QString) (res : QString) : Repl * QString :=
  match it with
  | "" => (repl, res)
  | String c it' =>
      let '(repl', str) := QMap.index repl c in
      if QString.isEmpty str
      then escape_loop repl' it' (res +:+ String c "")
      else escape_loop repl' it' (res +:+ str)
  end%string.

Definition escape (repl : Repl) (str : QString) : Repl * QString :=
  escape_loop (repl_fill repl) str "".

(** What the specification says of [escape], character by character. *)
Definition spec_escape_char (c : QChar) : QString :=
  match c with
  | " "%char => "&nbsp;"
  | "009"%char => "&nbsp;&nbsp;"
  | "010"%char => "<br />"
  | "<"%char => "&lt;"
  | ">"%char => "&gt;"
  | "&"%char => "&amp;"
  | _ => String c ""
  end.

Fixpoint spec_escape (s : QString) : QString :=
  match s with
  | "" => ""
  | String c s' => spec_escape_char c +:+ spec_escape s'
  end%string.

Definition is_special (c : QChar) : bool :=
  match c with
  | " "%char | "009"%char | "010"%char | "<"%char | ">"%char | "&"%char => true
  | _ => false
  end.

Fixpoint has_special (s : QString) : bool :=
  match s with
  | "" => false
  | String c s' => is_special c || has_special s'
  end%string.

(** The states the static map can be in: empty before the first call,
    and whatever a call leaves behind. *)
Inductive repl_reachable : Repl → Prop :=
| repl_initial : repl_reachable ∅
| repl_after_call repl str :
    repl_reachable repl → repl_reachable (escape repl str).1.

(** ** [QRegExp] *)

(** The model only searches with a regular expression; the engine itself
    is Qt's.  [indexIn re str offset] is the position of the first match
    at or after [offset], or [-1]; [matchedLength re str offset] is what
    [re.matchedLength()] returns right after that search. *)
Module QRegExp.
Class Engine := {
  t : Type;
  null : t;
  eqb : t → t → bool;
  isEmpty : t → bool;
  indexIn : t → QString → Z → Z;
  matchedLength : t → QString → Z → Z;
  null_isEmpty : isEmpty null = true;
  indexIn_found : ∀ re str offset,
    0 ≤ offset → indexIn re str offset ≠ -1 →
    offset ≤ indexIn re str offset
    ∧ 0 ≤ matchedLength re str offset
    ∧ indexIn re str offset + matchedLength re str offset ≤ QString.length str
}.
End QRegExp.

(** ** [ClipboardItem] *)

Module ClipboardItem.

(** Modelled from the spec: the class [ClipboardItem] is declared in a
    header that is not among the sources.  It is taken to be what the
    model uses of it: a [QString] (the entry's text, which an item is
    built from and converts to) together with an optional image
    ([image()], [setImage]), the filter flag ([isFiltered],
    [setFiltered]) and the highlight ([highlighted], [setHighlight]),
    each setter writing its own member only. *)
Record t := {
  text : QString;
  m_image : option QImage;
  m_filtered : bool;
  m_highlight : QString
}.

Definition of_string (str : QString) : t :=
  {| text := str; m_image := None; m_filtered := false; m_highlight := EmptyString |}.

Definition image (item : t) : option QImage := m_image item.
Definition highlighted (item : t) : QString := m_highlight item.
Definition isFiltered (item : t) : bool := m_filtered item.

Definition setFiltered (filtered : bool) (item : t) : t :=
  {| text := text item; m_image := m_image item;
     m_filtered := filtered; m_highlight := m_highlight item |}.

Definition setHighlight (str : QString) (item : t) : t :=
  {| text := text item; m_image := m_image item;
     m_filtered := m_filtered item; m_highlight := str |}.

Definition setImage (image : QImage) (item : t) : t :=
  {| text := text item; m_image := Some image;
     m_filtered := m_filtered item; m_highlight := m_highlight item |}.

End ClipboardItem.

(** ** [ClipboardModel] *)

Definition quote : QChar := "034"%char.
Definition span_open : QString := "<span class=" +:+ String quote ("em" +:+ String quote ">").
Definition span_close : QString := "</span>".

Module ClipboardModel.
Section Model.
Context {E : QRegExp.Engine}.

Record t := {
  m_clipboardList : list ClipboardItem.t;
  m_re : QRegExp.t
}.

Definition with_list (m : t) (l : list ClipboardItem.t) : t :=
  {| m_clipboardList := l; m_re := m_re m |}.

Definition with_re (m : t) (re : QRegExp.t) : t :=
  {| m_clipboardList := m_clipboardList m; m_re := re |}.

(** The constructor. *)
Definition create (items : list QString) : t :=
  {| m_clipboardList :=
       foldl (fun l str => QList.append l (ClipboardItem.of_string str)) [] items;
     m_re := QRegExp.null |}.

Definition rowCount (m : t) : Z := QList.size (m_clipboardList m).

Definition data (m : t) (index : QModelIndex) (role : Z) : outcome QVariant :=
  if negb (isValid index) || (QList.size (m_clipboardList m) <=? row index)
  then Done VInvalid
  else
    item ← QList.at_ (m_clipboardList m) (row index);
    let by_role :=
      if role =? Qt.DisplayRole then VString (ClipboardItem.highlighted item)
      else if role =? Qt.EditRole then VString (ClipboardItem.text item)
      else VInvalid in
    match ClipboardItem.image item with
    | Some image =>
        if (role =? Qt.DisplayRole) || (role =? Qt.EditRole)
        then Done (VImage image)
        else Done by_role
    | None => Done by_role
    end.



Fixpoint remove_loop (rows : nat) (position : Z) (l : list ClipboardItem.t)
  : list ClipboardItem.t :=
  match rows with
  | O => l
  | S rows' => remove_loop rows' position (QList.removeAt l position)
  end.

Definition removeRows (m : t) (position rows : Z) : t * bool :=
  (with_list m (remove_loop (Z.to_nat rows) position (m_clipboardList m)), true).

Definition getRowNumber (m : t) (row : Z) (cycle : bool) : Z :=
  let n := rowCount m in
  if n =? 0 then -1
  else if n <=? row then (if cycle then 0 else n - 1)
  else if row <? 0 then (if cycle then n - 1 else 0)
  else row.

Definition move (m : t) (pos newpos : Z) : outcome (t * bool) :=
  let from := getRowNumber m pos true in
  let to := getRowNumber m newpos true in
  if (from =? -1) || (to =? -1) then Done (m, false)
  else if negb (beginMoveRows empty_index from from empty_index
                      (if from <? to then to + 1 else to))
  then Done (m, false)
  else
    l ← QList.move (m_clipboardList m) from to;
    Done (with_list m l, true).

(** The [for] loop of [moveItems]; [n] rounds are left.  [from + 1] and
    [from - 1] are the code's as long as [from] is not [INT_MAX] or
    [INT_MIN] respectively. *)
Fixpoint moveItems_loop (n : nat) (i : Z) (list : list QModelIndex) (key : Z)
    (m : t) (res : bool) : outcome (t * bool) :=
  match n with
  | O => Done (m, res)
  | S n' =>
      index ←
        (if (key =? Qt.Key_Down) || (key =? Qt.Key_End)
         then QList.at_ list (QList.size list - 1 - i)
         else QList.at_ list i);
      let from := row index in
      let to :=
        if key =? Qt.Key_Down then from + 1
        else if key =? Qt.Key_Up then from - 1
        else if key =? Qt.Key_End then rowCount m - i - 1
        else 0 + i in
      '(m', moved) ← move m from to;
      if negb moved then Done (m', false)
      else moveItems_loop n' (i + 1) list key m'
             (if negb res then to =? 0 else res)
  end.

Definition moveItems (m : t) (list : list QModelIndex) (key : Z)
  : outcome (t * bool) :=
  let list := qSort list in
  moveItems_loop (List.length list) 0 list key m false.

Definition isFiltered (m : t) (i : Z) : outcome bool :=
  item ← QList.at_ (m_clipboardList m) i;
  Done (ClipboardItem.isFiltered item).

(** The [while (b != -1)] loop of [setSearch(i, re)]; [a] and [b] are
    the loop's variables, [b] being the result of the search from
    [a]. *)
Fixpoint highlight_loop (fuel : nat) (re : QRegExp.t) (str : QString)
    (repl : Repl) (a b : Z) (highlight : QString)
  : outcome (Repl * Z * QString) :=
  match fuel with
  | O => OutOfFuel
  | S fuel' =>
      if b =? -1 then Done (repl, a, highlight)
      else
        let len := QRegExp.matchedLength re str a in
        if len =? 0 then Done (repl, a, highlight)
        else
          let '(repl, e) := escape repl (QString.mid str a (b - a)) in
          let highlight := highlight +:+ e in
          let highlight := highlight +:+ span_open in
          let '(repl, e) := escape repl (QString.mid str b len) in
          let highlight := highlight +:+ e in
          let highlight := highlight +:+ span_close in
          let a := b + len in
          let b := QRegExp.indexIn re str a in
          highlight_loop fuel' re str repl a b highlight
  end.

Definition setSearch_row (repl : Repl) (m : t) (i : Z) (re : option QRegExp.t)
  : outcome (Repl * t) :=
  item ← QList.at_ (m_clipboardList m) i;
  let str := ClipboardItem.text item in
  let not_filtered :=
    l ← QList.modify (m_clipboardList m) i (ClipboardItem.setFiltered false);
    Done (repl, with_list m l) in
  match re with
  | None => not_filtered
  | Some re =>
      if QRegExp.isEmpty re then not_filtered
      else
        let a := 0 in
        let b := QRegExp.indexIn re str a in
        '(repl, a, highlight) ←
          highlight_loop (S (String.length str)) re str repl a b EmptyString;
        if QString.isEmpty highlight then
          l ← QList.modify (m_clipboardList m) i (ClipboardItem.setFiltered true);
          Done (repl, with_list m l)
        else
          let '(repl, highlight) :=
            if negb (a =? QString.length str)
            then let '(repl, e) := escape repl (QString.mid str a (-1)) in
                 (repl, highlight +:+ e)
            else (repl, highlight) in
          l ← QList.modify (m_clipboardList m) i (ClipboardItem.setFiltered false);
          l ← QList.modify l i (ClipboardItem.setHighlight highlight);
          Done (repl, with_list m l)
  end.

Fixpoint setSearch_rows (n : nat) (i : Z) (repl : Repl) (m : t)
  : outcome (Repl * t) :=
  match n with
  | O => Done (repl, m)
  | S n' =>
      '(repl, m) ← setSearch_row repl m i (Some (m_re m));
      setSearch_rows n' (i + 1) repl m
  end.

Definition setSearch (repl : Repl) (m : t) (re : option QRegExp.t)
  : outcome (Repl * t) :=
  match re with
  | None =>
      if QRegExp.isEmpty (m_re m) then Done (repl, m)
      else
        let m := with_re m QRegExp.null in
        setSearch_rows (Z.to_nat (rowCount m)) 0 repl m
  | Some re =>
      if QRegExp.eqb (m_re m) re then Done (repl, m)
      else
        let m := with_re m re in
        setSearch_rows (Z.to_nat (rowCount m)) 0 repl m
  end.

Definition setData (repl : Repl) (m : t) (index : QModelIndex)
    (value : QVariant) (role : Z) : outcome (Repl * t * bool) :=
  if isValid index && (role =? Qt.EditRole) then
    let row := row index in
    l ← (if QVariant.isImage value
         then QList.modify (m_clipboardList m) row
                (ClipboardItem.setImage (QVariant.toImage value))
         else QList.replace (m_clipboardList m) row
                (ClipboardItem.of_string (QVariant.toString value)));
    (* setSearch(row): the expression is left to its default, no
       expression at all *)
    '(repl, m) ← setSearch_row repl (with_list m l) row None;
    Done (repl, m, true)
  else Done (repl, m, false).

(** [QAbstractItemModel::flags], the base class's answer: selectable and
    enabled for a valid index that belongs to this model
    ([index.model() == this], here [own]), no flag otherwise. *)
Definition base_flags (index : QModelIndex) (own : bool) : Z :=
  if isValid index && own
  then Z.lor Qt.ItemIsSelectable Qt.ItemIsEnabled
  else 0.

Definition flags (index : QModelIndex) (own : bool) : Z :=
  if negb (isValid index) then Qt.ItemIsEnabled
  else Z.lor (base_flags index own) Qt.ItemIsEditable.

End Model.
End ClipboardModel.

(** * Vocabulary of the specification *)

(** What a lookup yields: the value stored, or the empty value entered
    on the spot. *)
Definition repl_value (repl : Repl) (c : QChar) : QString :=
  default EmptyString (repl !! c).

(** The table keeps its six entries and gains empty ones only. *)
Definition repl_ok (repl : Repl) : Prop :=
  repl ≠ ∅ ∧ ∀ c, repl_value repl c = repl_value (repl_fill ∅) c.

(** A list is [l] with the element of row [from] taken to row [to]. *)
Definition relocated {A : Type} (l l' : list A) (from to : Z) : Prop :=
  length l' = length l
  ∧ l' !! Z.to_nat to = l !! Z.to_nat from
  ∧ delete (Z.to_nat to) l' = delete (Z.to_nat from) l.

(** An argument of [move] wrapped around the ends of a model of [n]
    rows. *)
Definition cyclic_row (n row : Z) : Z :=
  if n <=? row then 0 else if row <? 0 then n - 1 else row.

Section Vocabulary.
Context {E : QRegExp.Engine}.
Import ClipboardModel.
Implicit Types (m : ClipboardModel.t) (re : QRegExp.t) (str : QString).

(** C5 as the specification words it: any count [n] with
    [p + n <= rowCount], a negative one too. *)
Definition removeRows_any_count m (p n : Z) : Prop :=
  0 ≤ p → p + n ≤ rowCount m →
  let (m', ok) := removeRows m p n in
  ok = true
  ∧ m_clipboardList m'
    = take (Z.to_nat p) (m_clipboardList m)
      ++ drop (Z.to_nat (p + n)) (m_clipboardList m)
  ∧ rowCount m' = rowCount m - n.

(** C3 as the specification words it: on a model with rows, [move]
    always relocates and returns true. *)
Definition move_always_true m (pos newpos : Z) : Prop :=
  (rowCount m ≠ 0 →
   ∃ m', move m pos newpos = Done (m', true)
         ∧ relocated (m_clipboardList m) (m_clipboardList m')
             (cyclic_row (rowCount m) pos) (cyclic_row (rowCount m) newpos))
  ∧ (rowCount m = 0 → move m pos newpos = Done (m, false)).

(** The matches [(position, length)] that repeated search goes through
    from [a]: each search starts where the match before ended, and the
    first search that finds nothing, or finds the empty string, ends the
    list. *)
Inductive successive re str : Z → list (Z * Z) → Prop :=
| successive_end a :
    QRegExp.indexIn re str a = -1 ∨ QRegExp.matchedLength re str a = 0 →
    successive re str a []
| successive_match a ms :
    QRegExp.indexIn re str a ≠ -1 →
    QRegExp.matchedLength re str a ≠ 0 →
    successive re str
      (QRegExp.indexIn re str a + QRegExp.matchedLength re str a) ms →
    successive re str a
      ((QRegExp.indexIn re str a, QRegExp.matchedLength re str a) :: ms).

(** All non-empty matches from [a], left to right without overlap: an
    empty match is stepped over by one character. *)
Inductive all_matches re str : Z → list (Z * Z) → Prop :=
| all_matches_end a :
    QRegExp.indexIn re str a = -1 →
    all_matches re str a []
| all_matches_skip a ms :
    QRegExp.indexIn re str a ≠ -1 →
    QRegExp.matchedLength re str a = 0 →
    all_matches re str (QRegExp.indexIn re str a + 1) ms →
    all_matches re str a ms
| all_matches_match a ms :
    QRegExp.indexIn re str a ≠ -1 →
    QRegExp.matchedLength re str a ≠ 0 →
    all_matches re str
      (QRegExp.indexIn re str a + QRegExp.matchedLength re str a) ms →
    all_matches re str a
      ((QRegExp.indexIn re str a, QRegExp.matchedLength re str a) :: ms).

(** The text before each match, escaped, and the match, escaped and
    wrapped, for the matches [ms] of a search that began at [a]. *)
Fixpoint spans str (a : Z) (ms : list (Z * Z)) : QString :=
  match ms with
  | [] => EmptyString
  | (b, len) :: ms' =>
      spec_escape (QString.mid str a (b - a)) +:+ span_open
      +:+ spec_escape (QString.mid str b len) +:+ span_close
      +:+ spans str (b + len) ms'
  end.

Fixpoint last_end (a : Z) (ms : list (Z * Z)) : Z :=
  match ms with
  | [] => a
  | (b, len) :: ms' => last_end (b + len) ms'
  end.

(** The highlight the specification describes for the matches [ms]. *)
Definition spec_highlight str (ms : list (Z * Z)) : QString :=
  spans str 0 ms +:+ spec_escape (QString.mid str (last_end 0 ms) (-1)).

(** C1 as the specification words it: filtered exactly when the
    expression matches nowhere; unfiltered and highlighted when it
    matches. *)
Definition filtered_iff_no_match (repl : Repl) m (i : Z) re : Prop :=
  ∀ item, m_clipboardList m !! Z.to_nat i = Some item →
  ∃ repl' m' item',
    setSearch_row repl m i (Some re) = Done (repl', m')
    ∧ m_clipboardList m' !! Z.to_nat i = Some item'
    ∧ (ClipboardItem.isFiltered item' = true
       ↔ QRegExp.indexIn re (ClipboardItem.text item) 0 = -1)
    ∧ (QRegExp.indexIn re (ClipboardItem.text item) 0 ≠ -1 →
       ClipboardItem.isFiltered item' = false
       ∧ QString.isEmpty (ClipboardItem.highlighted item') = false).

(** C2 as the specification words it. *)
Definition has_nonempty_match re str : Prop :=
  ∃ a, 0 ≤ a ≤ QString.length str
       ∧ QRegExp.indexIn re str a ≠ -1
       ∧ QRegExp.matchedLength re str a ≠ 0.

Definition highlight_of_all_matches (repl : Repl) m (i : Z) re : Prop :=
  ∀ item, m_clipboardList m !! Z.to_nat i = Some item →
  has_nonempty_match re (ClipboardItem.text item) →
  ∃ repl' m' item' ms,
    setSearch_row repl m i (Some re) = Done (repl', m')
    ∧ m_clipboardList m' !! Z.to_nat i = Some item'
    ∧ all_matches re (ClipboardItem.text item) 0 ms
    ∧ ClipboardItem.highlighted item' = spec_highlight (ClipboardItem.text item) ms.

End Vocabulary.

(** ** A small engine

    Regular expressions over characters with the search QRegExp does for
    them: the leftmost position at which the expression matches, and the
    longest match there (quantifiers are greedy).  The pattern [Eps] is
    the empty pattern string.  It serves to run the model on concrete
    texts. *)
Module Regex.

Inductive rx :=
| Fail
| Eps
| Chr (c : QChar)
| Any
| Cat (r1 r2 : rx)
| Alt (r1 r2 : rx)
| Star (r : rx).

#[global] Instance rx_eq_dec : EqDecision rx.
Proof. solve_decision. Defined.

Fixpoint nullable (r : rx) : bool :=
  match r with
  | Fail | Chr _ | Any => false
  | Eps | Star _ => true
  | Cat r1 r2 => nullable r1 && nullable r2
  | Alt r1 r2 => nullable r1 || nullable r2
  end.

Fixpoint deriv (c : QChar) (r : rx) : rx :=
  match r with
  | Fail | Eps => Fail
  | Chr c' => if bool_decide (c = c') then Eps else Fail
  | Any => Eps
  | Cat r1 r2 =>
      if nullable r1
      then Alt (Cat (deriv c r1) r2) (deriv c r2)
      else Cat (deriv c r1) r2
  | Alt r1 r2 => Alt (deriv c r1) (deriv c r2)
  | Star r1 => Cat (deriv c r1) (Star r1)
  end.

(** Length of the longest prefix of [s] that [r] matches. *)
Fixpoint longest (r : rx) (s : QString) : option nat :=
  match s with
  | EmptyString => if nullable r then Some 0%nat else None
  | String c s' =>
      match longest (deriv c r) s' with
      | Some n => Some (S n)
      | None => if nullable r then Some 0%nat else None
      end
  end.

(** First position, counted from [pos], where [r] matches in [s]. *)
Fixpoint scan (r : rx) (s : QString) (pos : nat) : option (nat * nat) :=
  match longest r s with
  | Some n => Some (pos, n)
  | None =>
      match s with
      | EmptyString => None
      | String _ s' => scan r s' (S pos)
      end
  end.

Fixpoint string_drop (n : nat) (s : QString) : QString :=
  match n, s with
  | O, _ => s
  | S n', String _ s' => string_drop n' s'
  | S _, EmptyString => EmptyString
  end.

(** A negative offset counts from the end of the text. *)
Definition search (r : rx) (str : QString) (offset : Z) : option (nat * nat) :=
  let offset := if offset <? 0 then offset + QString.length str else offset in
  if (offset <? 0) || (QString.length str <? offset) then None
  else scan r (string_drop (Z.to_nat offset) str) (Z.to_nat offset).

Definition indexIn (r : rx) (str : QString) (offset : Z) : Z :=
  match search r str offset with
  | Some (b, _) => Z.of_nat b
  | None => -1
  end.

Definition matchedLength (r : rx) (str : QString) (offset : Z) : Z :=
  match search r str offset with
  | Some (_, n) => Z.of_nat n
  | None => -1
  end.

Definition isEmpty (r : rx) : bool := bool_decide (r = Eps).

Lemma longest_le r s n : longest r s = Some n → (n ≤ String.length s)%nat.
Proof.
  revert r n. induction s as [|c s IH]; intros r n; simpl.
  - destruct (nullable r); intros [= <-]; lia.
  - destruct (longest (deriv c r) s) as [k|] eqn:Hk.
    + intros [= <-]. apply IH in Hk. lia.
    + destruct (nullable r); intros [= <-]; lia.
Qed.

Lemma scan_range r s pos b n :
  scan r s pos = Some (b, n) →
  (pos ≤ b ∧ b + n ≤ pos + String.length s)%nat.
Proof.
  revert pos. induction s as [|c s IH]; intros pos.
  - cbn [scan]. destruct (longest r EmptyString) as [k|] eqn:Hk; [|done].
    intros [= <- <-]. apply longest_le in Hk. simpl in *. lia.
  - cbn [scan]. destruct (longest r (String c s)) as [k|] eqn:Hk.
    + intros [= <- <-]. apply longest_le in Hk. lia.
    + intros H%IH. simpl. lia.
Qed.

Lemma string_drop_length n s :
  (n ≤ String.length s)%nat →
  String.length (string_drop n s) = (String.length s - n)%nat.
Proof.
  revert s. induction n as [|n IH]; intros [|c s]; simpl; try lia.
  intros H. apply IH. lia.
Qed.

Lemma search_found r str offset :
  0 ≤ offset → indexIn r str offset ≠ -1 →
  offset ≤ indexIn r str offset
  ∧ 0 ≤ matchedLength r str offset
  ∧ indexIn r str offset + matchedLength r str offset ≤ QString.length str.
Proof.
  unfold indexIn, matchedLength, search, QString.length.
  intros Hoff. assert ((offset <? 0) = false) as Hneg by lia.
  rewrite Hneg, Hneg.
  destruct (Z.ltb_spec (Z.of_nat (String.length str)) offset) as [?|Hle];
    simpl; [done|].
  destruct (scan _ _ _) as [[b n]|] eqn:Hs; [|done].
  intros _. apply scan_range in Hs.
  rewrite string_drop_length in Hs by lia. lia.
Qed.

#[global] Instance engine : QRegExp.Engine := {|
  QRegExp.t := rx;
  QRegExp.null := Eps;
  QRegExp.eqb := fun r1 r2 => bool_decide (r1 = r2);
  QRegExp.isEmpty := isEmpty;
  QRegExp.indexIn := indexIn;
  QRegExp.matchedLength := matchedLength;
  QRegExp.null_isEmpty := eq_refl;
  QRegExp.indexIn_found := search_found
|}.

(** The fixed text [s] as a pattern. *)
Fixpoint literal (s : QString) : rx :=
  match s with
  | EmptyString => Eps
  | String c EmptyString => Chr c
  | String c s' => Cat (Chr c) (literal s')
  end.

End Regex.

(** Rows and a model to run the functions on. *)
Definition row_index (r : Z) : QModelIndex :=
  {| row := r; column := 0; has_model := true |}.

Definition abc : ClipboardModel.t := ClipboardModel.create ["a"; "b"; "c"]%string.

(** * Properties *)

(** ** First runs *)

Example escape_eval :
  (escape ∅ "a <b>&c" ).2 = "a&nbsp;&lt;b&gt;&amp;c"%string.
Proof. vm_compute. reflexivity. Qed.

Example regex_search_1 :
  (Regex.indexIn (Regex.literal "lo") "hello world" 0,
   Regex.matchedLength (Regex.literal "lo") "hello world" 0) = (3, 2).
Proof. vm_compute. reflexivity. Qed.

Example regex_search_2 :
  (Regex.indexIn (Regex.Star (Regex.Chr "x")) "axxb" 0,
   Regex.matchedLength (Regex.Star (Regex.Chr "x")) "axxb" 0,
   Regex.indexIn (Regex.Star (Regex.Chr "x")) "axxb" 1,
   Regex.matchedLength (Regex.Star (Regex.Chr "x")) "axxb" 1) = (0, 0, 1, 2).
Proof. vm_compute. reflexivity. Qed.

(** ** Strings *)

Lemma append_nil_l (s : QString) : EmptyString +:+ s = s.
Proof. reflexivity. Qed.

Lemma append_cons (c : QChar) (s t : QString) :
  String c s +:+ t = String c (s +:+ t).
Proof. reflexivity. Qed.

Lemma append_nil_r (s : QString) : s +:+ EmptyString = s.
Proof. induction s as [|c s IH]; [done|]. by rewrite append_cons, IH. Qed.

Lemma append_assoc (s t u : QString) : (s +:+ t) +:+ u = s +:+ (t +:+ u).
Proof. induction s as [|c s IH]; [done|]. by rewrite !append_cons, IH. Qed.

Lemma isEmpty_true (s : QString) : QString.isEmpty s = true ↔ s = EmptyString.
Proof. by destruct s. Qed.

Lemma isEmpty_append (s t : QString) :
  QString.isEmpty (s +:+ t) = QString.isEmpty s && QString.isEmpty t.
Proof. by destruct s. Qed.

(** ** The static table of [escape] *)

Lemma repl_fill_nonempty : repl_fill ∅ ≠ ∅.
Proof. by vm_compute. Qed.

Lemma repl_fill_ok (repl : Repl) :
  repl = ∅ ∨ repl_ok repl → repl_ok (repl_fill repl).
Proof.
  intros [->|[Hne Hval]].
  - split; [apply repl_fill_nonempty|done].
  - unfold repl_fill, QMap.isEmpty. rewrite bool_decide_eq_false_2 by done.
    by split.
Qed.

Lemma index_value (repl : Repl) (c : QChar) :
  (QMap.index repl c).2 = repl_value repl c.
Proof. unfold QMap.index, repl_value. by destruct (repl !! c). Qed.

Lemma index_ok (repl : Repl) (c : QChar) :
  repl_ok repl → repl_ok (QMap.index repl c).1.
Proof.
  intros [Hne Hval]. unfold QMap.index.
  destruct (repl !! c) as [v|] eqn:Hc; simpl; [by split|].
  split.
  - intros Hemp. apply (f_equal (.!! c)) in Hemp.
    by rewrite lookup_insert_eq, lookup_empty in Hemp.
  - intros c'. rewrite <- Hval. unfold repl_value.
    destruct (decide (c = c')) as [<-|Hcc'].
    + by rewrite lookup_insert_eq, Hc.
    + by rewrite lookup_insert_ne.
Qed.

Lemma spec_escape_char_table (c : QChar) :
  spec_escape_char c =
    if QString.isEmpty (repl_value (repl_fill ∅) c) then String c EmptyString
    else repl_value (repl_fill ∅) c.
Proof.
  destruct c as [[] [] [] [] [] [] [] []]; vm_compute; reflexivity.
Qed.

Lemma escape_loop_spec (repl : Repl) (it res : QString) :
  repl_ok repl →
  repl_ok (escape_loop repl it res).1
  ∧ (escape_loop repl it res).2 = res +:+ spec_escape it.
Proof.
  revert repl res. induction it as [|c it IH]; intros repl res Hok.
  - simpl. by rewrite append_nil_r.
  - cbn [escape_loop spec_escape].
    pose proof (index_ok repl c Hok) as Hok'.
    pose proof (index_value repl c) as Hv.
    destruct (QMap.index repl c) as [repl' str]; simpl in Hok', Hv.
    rewrite spec_escape_char_table, <- (proj2 Hok c), <- Hv.
    destruct (QString.isEmpty str);
      (destruct (IH repl' (res +:+ String c EmptyString) Hok') as [? ->]
       || destruct (IH repl' (res +:+ str) Hok') as [? ->]);
      by rewrite append_assoc.
Qed.

Lemma reachable_ok (repl : Repl) :
  repl_reachable repl → repl = ∅ ∨ repl_ok repl.
Proof.
  induction 1 as [|repl str _ IH]; [by left|right].
  apply escape_loop_spec, repl_fill_ok, IH.
Qed.

Lemma escape_spec (repl : Repl) (str : QString) :
  repl_reachable repl → (escape repl str).2 = spec_escape str.
Proof.
  intros Hr. unfold escape.
  by destruct (escape_loop_spec (repl_fill repl) str EmptyString
                 (repl_fill_ok _ (reachable_ok _ Hr))) as [_ ->].
Qed.

Lemma spec_escape_app (s t : QString) :
  spec_escape (s +:+ t) = spec_escape s +:+ spec_escape t.
Proof.
  induction s as [|c s IH]; [done|].
  rewrite append_cons. simpl. by rewrite IH, append_assoc.
Qed.

Lemma spec_escape_char_plain (c : QChar) :
  is_special c = false → spec_escape_char c = String c EmptyString.
Proof.
  destruct c as [[] [] [] [] [] [] [] []]; vm_compute; congruence.
Qed.

Lemma spec_escape_plain (s : QString) :
  has_special s = false → spec_escape s = s.
Proof.
  induction s as [|c s IH]; [done|]. simpl.
  intros [Hc Hs]%orb_false_elim.
  by rewrite spec_escape_char_plain, IH.
Qed.

(** C8. In whatever state earlier calls have left its static table,
    [escape] rewrites its argument character by character with the fixed
    table (space, tab, newline, [<], [>], [&] to their replacements, any
    other character to itself); hence [escape (s ++ t)] is
    [escape s ++ escape t], and [escape s] is [s] when [s] has none of
    the six characters. *)
Theorem escape_homomorphism (repl1 repl2 repl3 : Repl) (s t : QString) :
  repl_reachable repl1 → repl_reachable repl2 → repl_reachable repl3 →
  (escape repl1 s).2 = spec_escape s
  ∧ (escape repl1 (s +:+ t)).2 = (escape repl2 s).2 +:+ (escape repl3 t).2
  ∧ (has_special s = false → (escape repl1 s).2 = s).
Proof.
  intros H1 H2 H3. rewrite !escape_spec by done.
  split; [done|]. split; [apply spec_escape_app|apply spec_escape_plain].
Qed.

Lemma escape_homomorphism_witness :
  repl_reachable ∅
  ∧ repl_reachable (escape ∅ "x y").1
  ∧ (escape ∅ "a<b").2 = spec_escape "a<b"
  ∧ (escape ∅ ("a<b" +:+ "c d")).2
    = (escape (escape ∅ "x y").1 "a<b").2 +:+ (escape ∅ "c d").2
  ∧ (has_special "a<b" = false → (escape ∅ "a<b").2 = "a<b"%string).
Proof.
  split; [apply repl_initial|].
  split; [apply repl_after_call, repl_initial|].
  apply (escape_homomorphism ∅ (escape ∅ "x y").1 ∅ "a<b" "c d").
  - apply repl_initial.
  - apply repl_after_call, repl_initial.
  - apply repl_initial.
Defined.

(** ** Outcomes *)

Lemma bind_Done {A B : Type} (f : A → outcome B) (x : A) :
  (y ← Done x; f y) = f x.
Proof. reflexivity. Qed.

(** ** Lists *)

Section QList_facts.
Context {A : Type}.
Implicit Types (l : list A) (i : Z).

Lemma inRange_true l i :
  QList.inRange l i = true ↔ 0 ≤ i ∧ (Z.to_nat i < length l)%nat.
Proof. unfold QList.inRange, QList.size. rewrite andb_true_iff. lia. Qed.

Lemma at_Done l i x :
  QList.at_ l i = Done x ↔ 0 ≤ i ∧ l !! Z.to_nat i = Some x.
Proof.
  unfold QList.at_. destruct (QList.inRange l i) eqn:Hr.
  - apply inRange_true in Hr as [? Hlt].
    destruct (lookup_lt_is_Some_2 l _ Hlt) as [y ->].
    split; [by intros [= ->]|by intros [_ [= ->]]].
  - split; [done|]. intros [? Hl]. apply lookup_lt_Some in Hl.
    assert (QList.inRange l i = true) by (apply inRange_true; lia). congruence.
Qed.

Lemma modify_Done l i f x :
  0 ≤ i → l !! Z.to_nat i = Some x →
  QList.modify l i f = Done (<[Z.to_nat i := f x]> l).
Proof.
  intros Hi Hl. unfold QList.modify.
  by rewrite (proj2 (at_Done l i x) (conj Hi Hl)).
Qed.


Lemma removeAt_take_drop l i :
  0 ≤ i < QList.size l →
  QList.removeAt l i = take (Z.to_nat i) l ++ drop (S (Z.to_nat i)) l.
Proof.
  unfold QList.removeAt, QList.size. intros Hi.
  rewrite (proj2 (inRange_true l i)) by lia.
  apply delete_take_drop.
Qed.

Lemma move_relocated l from to :
  0 ≤ from < QList.size l → 0 ≤ to < QList.size l →
  ∃ l', QList.move l from to = Done l' ∧ relocated l l' from to.
Proof.
  unfold QList.size. intros Hf Ht. unfold QList.move.
  rewrite !(proj2 (inRange_true l _)) by lia. simpl.
  destruct (lookup_lt_is_Some_2 l (Z.to_nat from)) as [x Hx]; [lia|].
  rewrite (proj2 (at_Done l from x)) by (split; [lia|done]). simpl.
  eexists; split; [done|].
  assert (length (delete (Z.to_nat from) l) = (length l - 1)%nat) as Hlen.
  { rewrite length_delete; [lia|]. eauto. }
  assert (length (take (Z.to_nat to) (delete (Z.to_nat from) l)) = Z.to_nat to)
    as Htk by (rewrite length_take; lia).
  repeat split.
  - rewrite length_app, length_cons, length_take, length_drop. lia.
  - rewrite Hx, lookup_app_r by lia.
    by rewrite Htk, Nat.sub_diag.
  - rewrite delete_take_drop.
    rewrite take_app_length' by done.
    rewrite cons_middle, app_assoc.
    rewrite drop_app_length' by (rewrite length_app; simpl; lia).
    apply take_drop.
Qed.

End QList_facts.

(** ** The model as a list *)

Section Model_facts.
Context {E : QRegExp.Engine}.
Import ClipboardModel.
Implicit Types (m : ClipboardModel.t) (l : list ClipboardItem.t).

Lemma create_list (items : list QString) :
  m_clipboardList (create items) = ClipboardItem.of_string <$> items.
Proof.
  unfold create. simpl.
  enough (∀ acc, foldl (λ l str, QList.append l (ClipboardItem.of_string str)) acc items
                 = acc ++ (ClipboardItem.of_string <$> items)) as H by apply H.
  induction items as [|str items IH]; intros acc; simpl.
  - by rewrite app_nil_r.
  - rewrite IH. unfold QList.append. by rewrite <- app_assoc.
Qed.

(** C7. A model built from any list of strings, the empty one too, has
    as many rows as the list has strings, and at each row [i] below that
    number the data for the edit role is the [i]-th string. *)
Theorem create_stores_sequence (items : list QString) :
  rowCount (create items) = Z.of_nat (length items)
  ∧ ∀ (i : nat) (str : QString) (index : QModelIndex),
      items !! i = Some str →
      isValid index = true →
      row index = Z.of_nat i →
      data (create items) index Qt.EditRole = Done (VString str).
Proof.
  unfold rowCount, data, QList.size.
  rewrite create_list, length_fmap. split; [done|].
  intros i str index Hi Hv Hrow. rewrite Hv, Hrow. simpl.
  pose proof (lookup_lt_Some _ _ _ Hi) as Hlt.
  destruct (Z.leb_spec (Z.of_nat (length items)) (Z.of_nat i)); [lia|].
  rewrite (proj2 (at_Done _ (Z.of_nat i) (ClipboardItem.of_string str))).
  - reflexivity.
  - split; [lia|]. by rewrite Nat2Z.id, list_lookup_fmap, Hi.
Qed.

(** C10. [data] is the null variant for an invalid index, for a row at
    or past the end of the list, and (whatever the index) for every role
    other than the display and the edit role. *)
Theorem data_null m (index : QModelIndex) (role : Z) :
  (isValid index = false ∨ rowCount m ≤ row index →
   data m index role = Done VInvalid)
  ∧ (role ≠ Qt.DisplayRole → role ≠ Qt.EditRole →
     data m index role = Done VInvalid).
Proof.
  unfold data, rowCount. split.
  - intros [->|Hrow]; [done|].
    destruct (Z.leb_spec (QList.size (m_clipboardList m)) (row index)); [|lia].
    by rewrite orb_true_r.
  - intros Hd He.
    destruct (isValid index) eqn:Hv; [|done]. simpl.
    destruct (Z.leb_spec (QList.size (m_clipboardList m)) (row index)) as [|Hlt];
      [done|].
    assert (0 ≤ row index) as Hpos.
    { unfold isValid in Hv. apply andb_true_iff in Hv as [Hv _].
      apply andb_true_iff in Hv as [Hv _]. lia. }
    destruct (lookup_lt_is_Some_2 (m_clipboardList m) (Z.to_nat (row index)))
      as [item Hitem]; [unfold QList.size in Hlt; lia|].
    rewrite (proj2 (at_Done _ _ item)) by done. simpl.
    destruct (Z.eqb_spec role Qt.DisplayRole); [done|].
    destruct (Z.eqb_spec role Qt.EditRole); [done|].
    by destruct (ClipboardItem.image item).
Qed.

(** C9. With an invalid index, or a role other than the edit role,
    [setData] returns false and changes nothing: the model (every item
    with its flag and highlight) and the table of [escape] are those it
    was given. *)
Theorem setData_rejected (repl : Repl) m (index : QModelIndex)
    (value : QVariant) (role : Z) :
  isValid index = false ∨ role ≠ Qt.EditRole →
  setData repl m index value role = Done (repl, m, false).
Proof.
  unfold setData. intros [->|Hrole]; [done|].
  destruct (Z.eqb_spec role Qt.EditRole); [done|].
  by rewrite andb_false_r.
Qed.

Lemma remove_loop_spec (k : nat) (p : Z) l :
  0 ≤ p → p + Z.of_nat k ≤ QList.size l →
  remove_loop k p l = take (Z.to_nat p) l ++ drop (Z.to_nat p + k) l.
Proof.
  unfold QList.size. revert l. induction k as [|k IH]; intros l Hp Hk.
  - simpl. by rewrite Nat.add_0_r, take_drop.
  - cbn [remove_loop].
    rewrite removeAt_take_drop by (unfold QList.size; lia).
    assert (length (take (Z.to_nat p) l) = Z.to_nat p) as Htk
      by (rewrite length_take; lia).
    rewrite IH.
    + rewrite take_app_length' by done.
      rewrite drop_app_add' by done.
      rewrite drop_drop. do 2 f_equal. lia.
    + done.
    + rewrite length_app, length_take, length_drop. lia.
Qed.

(** C5, amended. For [0 <= p], a count [n >= 0] and [p + n <= rowCount],
    [removeRows(p, n)] returns true and leaves the rows before [p]
    followed by the rows from [p + n] on, unchanged and in their order;
    the row count goes down by [n]. *)
Theorem removeRows_spec m (p n : Z) :
  0 ≤ p → 0 ≤ n → p + n ≤ rowCount m →
  let (m', ok) := removeRows m p n in
  ok = true
  ∧ m_clipboardList m'
    = take (Z.to_nat p) (m_clipboardList m)
      ++ drop (Z.to_nat (p + n)) (m_clipboardList m)
  ∧ rowCount m' = rowCount m - n
  ∧ m_re m' = m_re m.
Proof.
  unfold rowCount. intros Hp Hn Hpn. simpl.
  rewrite remove_loop_spec by (rewrite ?Z2Nat.id; lia).
  replace (Z.to_nat p + Z.to_nat n)%nat with (Z.to_nat (p + n)) by lia.
  repeat split. unfold QList.size in *.
  rewrite length_app, length_take, length_drop. lia.
Qed.



End Model_facts.

(** ** Moving rows *)

Section Move_facts.
Context {E : QRegExp.Engine}.
Import ClipboardModel.
Implicit Types (m : ClipboardModel.t).

Lemma getRowNumber_cyclic m (row : Z) :
  rowCount m ≠ 0 →
  getRowNumber m row true = cyclic_row (rowCount m) row
  ∧ 0 ≤ cyclic_row (rowCount m) row < rowCount m.
Proof.
  intros Hn. unfold getRowNumber, cyclic_row.
  assert (0 ≤ rowCount m) by (unfold rowCount, QList.size; lia).
  destruct (Z.eqb_spec (rowCount m) 0); [done|].
  destruct (Z.leb_spec (rowCount m) row); [lia|].
  destruct (Z.ltb_spec row 0); lia.
Qed.

Lemma beginMoveRows_single (from to : Z) :
  beginMoveRows empty_index from from empty_index (if from <? to then to + 1 else to)
  = negb (from =? to).
Proof.
  unfold beginMoveRows. simpl.
  destruct (Z.ltb_spec from to), (Z.eqb_spec from to); simpl; try lia;
    rewrite negb_andb, orb_true_iff, !negb_true_iff, ?Z.leb_gt; lia.
Qed.

(** C3, amended. [move] wraps both arguments around the ends of the
    list.  On a model with rows, when the wrapped rows differ it takes
    the element of the wrapped source row to the wrapped destination
    row, the other elements keeping their order, and returns true; when
    they are one and the same row it returns false and the model is as
    before.  On an empty model it returns false and the model is as
    before. *)
Theorem move_spec m (pos newpos : Z) :
  let n := rowCount m in
  let from := cyclic_row n pos in
  let to := cyclic_row n newpos in
  (n = 0 → move m pos newpos = Done (m, false))
  ∧ (n ≠ 0 → from = to → move m pos newpos = Done (m, false))
  ∧ (n ≠ 0 → from ≠ to →
     ∃ m', move m pos newpos = Done (m', true)
           ∧ relocated (m_clipboardList m) (m_clipboardList m') from to
           ∧ m_re m' = m_re m).
Proof.
  intros n from to. subst n from to. split; [|split].
  - intros Hn. unfold move, getRowNumber. by rewrite Hn.
  - intros Hn Heq.
    destruct (getRowNumber_cyclic m pos Hn) as [Hf Hfr].
    destruct (getRowNumber_cyclic m newpos Hn) as [Ht Htr].
    unfold move. rewrite Hf, Ht, beginMoveRows_single, Heq, Z.eqb_refl.
    destruct (Z.eqb_spec (cyclic_row (rowCount m) newpos) (-1)); [lia|done].
  - intros Hn Hne.
    destruct (getRowNumber_cyclic m pos Hn) as [Hf Hfr].
    destruct (getRowNumber_cyclic m newpos Hn) as [Ht Htr].
    unfold move. rewrite Hf, Ht, beginMoveRows_single.
    destruct (Z.eqb_spec (cyclic_row (rowCount m) pos) (-1)); [lia|].
    destruct (Z.eqb_spec (cyclic_row (rowCount m) newpos) (-1)); [lia|].
    destruct (Z.eqb_spec (cyclic_row (rowCount m) pos)
                (cyclic_row (rowCount m) newpos)); [done|]. simpl.
    destruct (move_relocated (m_clipboardList m) _ _ Hfr Htr) as (l' & -> & Hrel).
    simpl. eexists. split; [done|]. by split.
Qed.

End Move_facts.

(** ** Search and highlight *)

Section Search_facts.
Context {E : QRegExp.Engine}.
Import ClipboardModel.
Implicit Types (m : ClipboardModel.t) (re : QRegExp.t) (str : QString).

Lemma substring_none (n : nat) str : substring n 0 str = EmptyString.
Proof. revert n. induction str as [|c s IH]; intros [|n]; simpl; auto. Qed.

Lemma mid_at_end str :
  QString.mid str (QString.length str) (-1) = EmptyString.
Proof.
  unfold QString.mid.
  assert (0 ≤ QString.length str) by (unfold QString.length; lia).
  rewrite Z.ltb_irrefl.
  destruct (Z.ltb_spec (QString.length str) 0); [lia|]. simpl.
  by rewrite Z.sub_diag, substring_none.
Qed.

Lemma spans_cons_nonempty str a p ms :
  QString.isEmpty (spans str a (p :: ms)) = false.
Proof.
  destruct p as [b len]. simpl.
  rewrite isEmpty_append, andb_false_iff. right.
  by rewrite isEmpty_append.
Qed.

Lemma spec_highlight_nonempty str ms :
  ms ≠ [] → QString.isEmpty (spec_highlight str ms) = false.
Proof.
  destruct ms as [|p ms]; [done|]. intros _. unfold spec_highlight.
  by rewrite isEmpty_append, spans_cons_nonempty.
Qed.

Lemma highlight_loop_more_fuel re str (fuel fuel' : nat) (repl : Repl)
    (a b : Z) (acc : QString) r :
  highlight_loop fuel re str repl a b acc = Done r →
  (fuel ≤ fuel')%nat →
  highlight_loop fuel' re str repl a b acc = Done r.
Proof.
  revert fuel' repl a b acc.
  induction fuel as [|fuel IH]; intros fuel' repl a b acc; [done|].
  intros Hrun Hle. destruct fuel' as [|fuel']; [lia|].
  cbn [highlight_loop] in *.
  destruct (b =? -1); [done|].
  destruct (QRegExp.matchedLength re str a =? 0); [done|].
  destruct (escape repl _) as [repl1 e1].
  destruct (escape repl1 _) as [repl2 e2].
  apply IH; [done|lia].
Qed.

(** The loop ends within [length str + 1] rounds, having gone through
    the successive matches and appended their spans. *)
Lemma highlight_loop_spec re str (fuel : nat) (repl : Repl) (a : Z)
    (acc : QString) :
  repl_reachable repl →
  0 ≤ a ≤ QString.length str →
  QString.length str - a < Z.of_nat fuel →
  ∃ repl' ms,
    highlight_loop fuel re str repl a (QRegExp.indexIn re str a) acc
    = Done (repl', last_end a ms, acc +:+ spans str a ms)
    ∧ successive re str a ms
    ∧ repl_reachable repl'
    ∧ 0 ≤ last_end a ms ≤ QString.length str.
Proof.
  revert repl a acc.
  induction fuel as [|fuel IH]; intros repl a acc Hr Ha Hfuel; [lia|].
  cbn [highlight_loop].
  destruct (Z.eqb_spec (QRegExp.indexIn re str a) (-1)) as [Hb|Hb].
  { exists repl, []. simpl. rewrite append_nil_r.
    repeat split; try done; try lia. constructor. by left. }
  destruct (Z.eqb_spec (QRegExp.matchedLength re str a) 0) as [Hlen|Hlen].
  { exists repl, []. simpl. rewrite append_nil_r.
    repeat split; try done; try lia. constructor. by right. }
  destruct (QRegExp.indexIn_found re str a (proj1 Ha) Hb) as (Hab & Hl0 & Hend).
  set (b := QRegExp.indexIn re str a) in *.
  set (len := QRegExp.matchedLength re str a) in *.
  pose proof (escape_spec repl (QString.mid str a (b - a)) Hr) as He1.
  pose proof (repl_after_call repl (QString.mid str a (b - a)) Hr) as Hr1.
  destruct (escape repl (QString.mid str a (b - a))) as [repl1 e1].
  simpl in He1, Hr1. subst e1.
  pose proof (escape_spec repl1 (QString.mid str b len) Hr1) as He2.
  pose proof (repl_after_call repl1 (QString.mid str b len) Hr1) as Hr2.
  destruct (escape repl1 (QString.mid str b len)) as [repl2 e2].
  simpl in He2, Hr2. subst e2.
  edestruct (IH repl2 (b + len)) as (repl' & ms & -> & Hms & Hr' & Hlast);
    [done|lia|lia|].
  exists repl', ((b, len) :: ms). simpl.
  rewrite !append_assoc.
  repeat split; try done; try lia.
  by constructor.
Qed.

(** What [setSearch(i, re)] does to row [i] for a non-empty [re]. *)
Lemma setSearch_row_spec (repl : Repl) m (i : Z) re item :
  repl_reachable repl → 0 ≤ i →
  m_clipboardList m !! Z.to_nat i = Some item →
  QRegExp.isEmpty re = false →
  ∃ repl' ms,
    successive re (ClipboardItem.text item) 0 ms
    ∧ repl_reachable repl'
    ∧ setSearch_row repl m i (Some re)
      = Done (repl',
              with_list m
                (<[Z.to_nat i :=
                     match ms with
                     | [] => ClipboardItem.setFiltered true item
                     | _ :: _ =>
                         ClipboardItem.setHighlight
                           (spec_highlight (ClipboardItem.text item) ms)
                           (ClipboardItem.setFiltered false item)
                     end]> (m_clipboardList m))).
Proof.
  intros Hr Hi Hitem Hre. unfold setSearch_row.
  rewrite (proj2 (at_Done _ i item)) by done. rewrite bind_Done, Hre.
  set (str := ClipboardItem.text item).
  destruct (highlight_loop_spec re str (S (String.length str)) repl 0 EmptyString)
    as (repl1 & ms & -> & Hms & Hr1 & Hlast);
    [done|unfold QString.length; lia|unfold QString.length; lia|].
  simpl. rewrite append_nil_l.
  destruct ms as [|p ms].
  - simpl. exists repl1, []. repeat split; [done..|].
    by rewrite (modify_Done _ i _ item).
  - rewrite spans_cons_nonempty.
    set (ms' := p :: ms) in *.
    assert (∃ repl2,
      (if negb (last_end 0 ms' =? QString.length str)
       then let '(repl2, e) := escape repl1 (QString.mid str (last_end 0 ms') (-1)) in
            (repl2, spans str 0 ms' +:+ e)
       else (repl1, spans str 0 ms'))
      = (repl2, spec_highlight str ms') ∧ repl_reachable repl2)
      as (repl2 & -> & Hr2).
    { unfold spec_highlight.
      destruct (Z.eqb_spec (last_end 0 ms') (QString.length str)) as [->|Hne]; simpl.
      - exists repl1. by rewrite mid_at_end, append_nil_r.
      - pose proof (escape_spec repl1 (QString.mid str (last_end 0 ms') (-1)) Hr1) as He.
        pose proof (repl_after_call repl1 (QString.mid str (last_end 0 ms') (-1)) Hr1).
        destruct (escape repl1 _) as [repl2 e]. simpl in *. subst e.
        by exists repl2. }
    exists repl2, ms'. repeat split; [done..|].
    rewrite (modify_Done _ i _ item) by done. simpl.
    pose proof (lookup_lt_Some _ _ _ Hitem) as Hlt.
    rewrite (modify_Done _ i _ (ClipboardItem.setFiltered false item))
      by (by rewrite ?list_lookup_insert_eq).
    by rewrite list_insert_insert_eq.
Qed.

End Search_facts.

Section Search_claims.
Context {E : QRegExp.Engine}.
Import ClipboardModel.
Implicit Types (m : ClipboardModel.t) (re : QRegExp.t) (str : QString).

Lemma successive_unique re str (a : Z) (ms1 ms2 : list (Z * Z)) :
  successive re str a ms1 → successive re str a ms2 → ms1 = ms2.
Proof.
  intros H1. revert ms2.
  induction H1 as [a Hstop|a ms1 Hb Hlen _ IH]; intros ms2 H2.
  - inversion H2; subst; [done|]. by destruct Hstop.
  - inversion H2 as [a' Hstop|a' ms2' _ _ Hrest]; subst.
    + by destruct Hstop.
    + f_equal. by apply IH.
Qed.

(** C1, amended. For a row [i] of the model and a non-empty regular
    expression, [setSearch(i, re)] changes row [i] only, and leaves its
    item filtered exactly when the search from the start of the item's
    text finds no match or finds the empty string; when that first match
    is a non-empty string, the item is unfiltered and carries a
    non-empty highlight. *)
Theorem setSearch_filtered_iff (repl : Repl) m (i : Z) re item :
  repl_reachable repl → 0 ≤ i →
  m_clipboardList m !! Z.to_nat i = Some item →
  QRegExp.isEmpty re = false →
  ∃ repl' m' item',
    setSearch_row repl m i (Some re) = Done (repl', m')
    ∧ m_clipboardList m' = <[Z.to_nat i := item']> (m_clipboardList m)
    ∧ ClipboardItem.text item' = ClipboardItem.text item
    ∧ isFiltered m' i = Done (ClipboardItem.isFiltered item')
    ∧ (ClipboardItem.isFiltered item' = true
       ↔ QRegExp.indexIn re (ClipboardItem.text item) 0 = -1
         ∨ QRegExp.matchedLength re (ClipboardItem.text item) 0 = 0)
    ∧ (QRegExp.indexIn re (ClipboardItem.text item) 0 ≠ -1 →
       QRegExp.matchedLength re (ClipboardItem.text item) 0 ≠ 0 →
       ClipboardItem.isFiltered item' = false
       ∧ QString.isEmpty (ClipboardItem.highlighted item') = false).
Proof.
  intros Hr Hi Hitem Hre.
  destruct (setSearch_row_spec repl m i re item Hr Hi Hitem Hre)
    as (repl' & ms & Hms & _ & Hrun).
  pose proof (lookup_lt_Some _ _ _ Hitem) as Hlt.
  eexists repl', _, _. split; [exact Hrun|]. split; [reflexivity|].
  assert (∀ item', isFiltered
            (with_list m (<[Z.to_nat i := item']> (m_clipboardList m))) i
          = Done (ClipboardItem.isFiltered item')) as Hflag.
  { intros item'. unfold isFiltered. simpl.
    by rewrite (proj2 (at_Done _ i item'))
      by (split; [done|by apply list_lookup_insert_eq]). }
  rewrite Hflag.
  inversion Hms as [a Hstop|a ms' Hb Hlen Hrest]; subst; simpl.
  - split; [done|]. split; [done|]. split; [done|].
    intros Hb Hlen. by destruct Hstop.
  - split; [done|]. split; [done|]. split.
    + split; [done|]. by intros [Hb'|Hlen'].
    + intros _ _. split; [done|]. by apply spec_highlight_nonempty.
Qed.

(** C2, amended. For an item text [s] and a non-empty regular
    expression whose first match in [s], searching from the start, is a
    non-empty string, the highlight that [setSearch(i, re)] gives the
    item is the concatenation, over the successive matches (each search
    starting at the end of the match before, up to the first search that
    finds nothing or the empty string), of the escaped text between the
    end of the match before and the match, the opening span tag, the
    escaped match and the closing tag, followed by the escaped rest of
    [s] after the last of these matches. *)
Theorem setSearch_highlight (repl : Repl) m (i : Z) re item :
  repl_reachable repl → 0 ≤ i →
  m_clipboardList m !! Z.to_nat i = Some item →
  QRegExp.isEmpty re = false →
  QRegExp.indexIn re (ClipboardItem.text item) 0 ≠ -1 →
  QRegExp.matchedLength re (ClipboardItem.text item) 0 ≠ 0 →
  ∃ repl' m' item' ms,
    setSearch_row repl m i (Some re) = Done (repl', m')
    ∧ m_clipboardList m' !! Z.to_nat i = Some item'
    ∧ successive re (ClipboardItem.text item) 0 ms
    ∧ ms ≠ []
    ∧ ClipboardItem.highlighted item' = spec_highlight (ClipboardItem.text item) ms.
Proof.
  intros Hr Hi Hitem Hre Hb Hlen.
  destruct (setSearch_row_spec repl m i re item Hr Hi Hitem Hre)
    as (repl' & ms & Hms & _ & Hrun).
  pose proof (lookup_lt_Some _ _ _ Hitem) as Hlt.
  eexists repl', _, _, ms. split; [exact Hrun|].
  split; [by apply list_lookup_insert_eq|].
  split; [done|].
  inversion Hms as [a Hstop|a ms' _ _ Hrest]; subst.
  - by destruct Hstop.
  - done.
Qed.

End Search_claims.

(** ** The model at work *)

Section Runs.
Import ClipboardModel.
Import Regex.

(** C1 fails as worded: the expression [x*] matches (the empty string)
    at the start of "abc", and the item is filtered all the same. *)
Lemma filtered_despite_match :
  ¬ filtered_iff_no_match ∅ (create ["abc"%string]) 0 (Star (Chr "x")).
Proof.
  intros H.
  destruct (H (ClipboardItem.of_string "abc") eq_refl)
    as (repl' & m' & item' & Hrun & Hitem & Hiff & _).
  vm_compute in Hrun. injection Hrun as _ <-.
  vm_compute in Hitem. injection Hitem as <-.
  apply proj1 in Hiff. specialize (Hiff eq_refl).
  vm_compute in Hiff. discriminate.
Qed.

Lemma setSearch_filtered_iff_witness :
  repl_reachable ∅ ∧ 0 ≤ 1
  ∧ ∃ repl' m' item',
      setSearch_row ∅ (create ["abc"; "hello world"]%string) 1 (Some (literal "lo"))
      = Done (repl', m')
      ∧ m_clipboardList m'
        = <[1%nat := item']> (m_clipboardList (create ["abc"; "hello world"]%string))
      ∧ ClipboardItem.text item' = "hello world"%string
      ∧ isFiltered m' 1 = Done (ClipboardItem.isFiltered item')
      ∧ (ClipboardItem.isFiltered item' = true
         ↔ indexIn (literal "lo") "hello world" 0 = -1
           ∨ matchedLength (literal "lo") "hello world" 0 = 0)
      ∧ (indexIn (literal "lo") "hello world" 0 ≠ -1 →
         matchedLength (literal "lo") "hello world" 0 ≠ 0 →
         ClipboardItem.isFiltered item' = false
         ∧ QString.isEmpty (ClipboardItem.highlighted item') = false).
Proof.
  split; [apply repl_initial|]. split; [lia|].
  apply (setSearch_filtered_iff (E := engine) ∅ (create ["abc"; "hello world"]%string) 1
           (literal "lo") (ClipboardItem.of_string "hello world")).
  - apply repl_initial.
  - lia.
  - reflexivity.
  - reflexivity.
Defined.

Lemma spec_highlight_ax (ms : list (Z * Z)) :
  spec_highlight "ax" ms ≠ EmptyString.
Proof.
  destruct ms as [|p ms].
  - by vm_compute.
  - intros Heq. pose proof (spec_highlight_nonempty "ax" (p :: ms)) as Hne.
    rewrite Heq in Hne. by specialize (Hne ltac:(done)).
Qed.

(** C2 fails as worded: [x*] has the non-empty match "x" in "ax", yet
    its first match there is empty, the item is filtered and no
    highlight is made; no list of matches renders to the empty highlight
    the item is left with. *)
Lemma no_highlight_after_empty_match :
  ¬ highlight_of_all_matches ∅ (create ["ax"%string]) 0 (Star (Chr "x")).
Proof.
  intros H.
  destruct (H (ClipboardItem.of_string "ax") eq_refl)
    as (repl' & m' & item' & ms & Hrun & Hitem & _ & Hh).
  { exists 1. by vm_compute. }
  vm_compute in Hrun. injection Hrun as _ <-.
  vm_compute in Hitem. injection Hitem as <-.
  simpl in Hh. symmetry in Hh. by apply spec_highlight_ax in Hh.
Qed.

Lemma setSearch_highlight_witness :
  repl_reachable ∅ ∧ 0 ≤ 0
  ∧ ∃ repl' m' item' ms,
      setSearch_row ∅ (create ["a<b a"]%string) 0 (Some (Chr "a")) = Done (repl', m')
      ∧ m_clipboardList m' !! 0%nat = Some item'
      ∧ successive (Chr "a") "a<b a" 0 ms
      ∧ ms ≠ []
      ∧ ClipboardItem.highlighted item' = spec_highlight "a<b a" ms.
Proof.
  split; [apply repl_initial|]. split; [lia|].
  apply (setSearch_highlight (E := engine) ∅ (create ["a<b a"]%string) 0 (Chr "a")
           (ClipboardItem.of_string "a<b a")).
  - apply repl_initial.
  - lia.
  - reflexivity.
  - reflexivity.
  - by vm_compute.
  - by vm_compute.
Defined.

Example setSearch_highlight_run :
  ('(_, m) ← setSearch_row ∅ (create ["a<b a"]%string) 0 (Some (Chr "a"));
   Done (ClipboardItem.highlighted <$> m_clipboardList m))
  = Done [span_open +:+ "a" +:+ span_close +:+ "&lt;b&nbsp;"
          +:+ span_open +:+ "a" +:+ span_close].
Proof. by vm_compute. Qed.

End Runs.

Section Runs_rows.
Import ClipboardModel.
Import Regex.

(** C3 fails as worded: on the one-row model, [move(0, 0)] returns
    false. *)
Lemma move_onto_itself_false :
  ¬ move_always_true (create ["a"%string]) 0 0.
Proof.
  intros [H _]. destruct H as (m' & Hrun & _); [by vm_compute|].
  vm_compute in Hrun. discriminate.
Qed.

Lemma move_spec_witness :
  rowCount abc ≠ 0
  ∧ cyclic_row (rowCount abc) (-1) = 2
  ∧ cyclic_row (rowCount abc) 5 = 0
  ∧ ∃ m', move abc (-1) 5 = Done (m', true)
          ∧ relocated (m_clipboardList abc) (m_clipboardList m') 2 0
          ∧ m_re m' = m_re abc.
Proof.
  split; [by vm_compute|]. split; [reflexivity|]. split; [reflexivity|].
  destruct (move_spec abc (-1) 5) as (_ & _ & H).
  apply H; by vm_compute.
Defined.

Example move_run :
  ('(m, moved) ← move abc (-1) 5;
   Done (ClipboardItem.text <$> m_clipboardList m, moved))
  = Done (["c"; "a"; "b"]%string, true).
Proof. by vm_compute. Qed.

(** C4: the item of the last row, moved down, wraps around to row 0,
    and [moveItems] returns false although its own description promises
    true when an item was moved to the top. *)
Theorem moveItems_wrap_to_top_unreported :
  move abc 2 3 = Done (with_list abc (ClipboardItem.of_string <$> ["c"; "a"; "b"]%string), true)
  ∧ moveItems abc [row_index 2] Qt.Key_Down
    = Done (with_list abc (ClipboardItem.of_string <$> ["c"; "a"; "b"]%string), false).
Proof. split; by vm_compute. Qed.

(** C5 fails as worded: on three rows, [p = 2] and [n = -1] meet its
    conditions; the loop does not run, and the row count stays 3 where
    the claim has it go down by [-1], to 4. *)
Lemma removeRows_negative_count :
  ¬ removeRows_any_count abc 2 (-1).
Proof.
  intros H. unfold removeRows_any_count in H.
  destruct H as (_ & _ & Hcount); [lia|by vm_compute|].
  vm_compute in Hcount. discriminate.
Qed.

Lemma removeRows_spec_witness :
  0 ≤ 1 ∧ 0 ≤ 2 ∧ 1 + 2 ≤ rowCount abc
  ∧ let (m', ok) := removeRows abc 1 2 in
    ok = true
    ∧ m_clipboardList m'
      = take 1 (m_clipboardList abc) ++ drop 3 (m_clipboardList abc)
    ∧ rowCount m' = rowCount abc - 2
    ∧ m_re m' = m_re abc.
Proof.
  assert (1 + 2 ≤ rowCount abc) as H by (by vm_compute).
  split; [lia|]. split; [lia|]. split; [exact H|].
  apply (removeRows_spec abc 1 2); [lia|lia|exact H].
Defined.


Lemma create_stores_sequence_witness :
  ["a"; "b"; "c"]%string !! 1%nat = Some "b"%string
  ∧ isValid (row_index 1) = true
  ∧ row (row_index 1) = Z.of_nat 1
  ∧ rowCount (create ["a"; "b"; "c"]%string) = 3
  ∧ data (create ["a"; "b"; "c"]%string) (row_index 1) Qt.EditRole
    = Done (VString "b").
Proof.
  split; [reflexivity|]. split; [reflexivity|]. split; [reflexivity|].
  destruct (create_stores_sequence (E := engine) ["a"; "b"; "c"]%string)
    as [Hcount Hdata].
  split; [exact Hcount|].
  apply (Hdata 1%nat "b"%string (row_index 1)); reflexivity.
Defined.

Lemma data_null_witness :
  (isValid (row_index 3) = false ∨ rowCount abc ≤ row (row_index 3))
  ∧ data abc (row_index 3) Qt.EditRole = Done VInvalid
  ∧ data abc (row_index 1) 7 = Done VInvalid.
Proof.
  assert (isValid (row_index 3) = false ∨ rowCount abc ≤ row (row_index 3)) as H
    by (right; by vm_compute).
  split; [exact H|]. split.
  - exact (proj1 (data_null abc (row_index 3) Qt.EditRole) H).
  - apply (proj2 (data_null abc (row_index 1) 7)); by vm_compute.
Defined.

Lemma setData_rejected_witness :
  (isValid (row_index 1) = false ∨ Qt.DisplayRole ≠ Qt.EditRole)
  ∧ setData ∅ abc (row_index 1) (VString "z") Qt.DisplayRole = Done (∅, abc, false).
Proof.
  assert (isValid (row_index 1) = false ∨ Qt.DisplayRole ≠ Qt.EditRole) as H
    by (right; by vm_compute).
  split; [exact H|].
  exact (setData_rejected ∅ abc (row_index 1) (VString "z") Qt.DisplayRole H).
Defined.

Example setData_run :
  ('(_, m, ok) ← setData ∅ abc (row_index 1) (VString "z") Qt.EditRole;
   Done (ClipboardItem.text <$> m_clipboardList m, ok))
  = Done (["a"; "z"; "c"]%string, true).
Proof. by vm_compute. Qed.

End Runs_rows.

(** * Further properties of the model *)

(** ** More on lists *)

Section More_lists.
Context {A : Type}.
Implicit Types (l : list A).

Lemma take_delete_self l (i : nat) :
  (i < length l)%nat → take i (delete i l) = take i l.
Proof.
  intros Hi. rewrite delete_take_drop.
  by rewrite take_app_length' by (rewrite length_take; lia).
Qed.

Lemma drop_delete_self l (i : nat) :
  (i < length l)%nat → drop i (delete i l) = drop (S i) l.
Proof.
  intros Hi. rewrite delete_take_drop.
  by rewrite drop_app_length' by (rewrite length_take; lia).
Qed.

Lemma relocated_Permutation l l' (from to : Z) :
  (Z.to_nat from < length l)%nat → relocated l l' from to → l' ≡ₚ l.
Proof.
  intros Hf (Hlen & Hat & Hdel).
  destruct (lookup_lt_is_Some_2 l (Z.to_nat from) Hf) as [x Hx].
  rewrite Hx in Hat.
  rewrite (delete_Permutation l' _ _ Hat), (delete_Permutation l _ _ Hx).
  by rewrite Hdel.
Qed.

Lemma move_back l l' (from to : Z) :
  QList.move l from to = Done l' → QList.move l' to from = Done l.
Proof.
  intros Hmove.
  assert (0 ≤ from < QList.size l ∧ 0 ≤ to < QList.size l) as [Hf Ht].
  { unfold QList.move in Hmove.
    destruct (QList.inRange l from) eqn:Hf; [|done].
    destruct (QList.inRange l to) eqn:Ht; [|done].
    apply inRange_true in Hf, Ht. unfold QList.size. lia. }
  destruct (move_relocated l from to Hf Ht) as (l'' & Hm & Hlen & Hat & Hdel).
  rewrite Hmove in Hm. injection Hm as <-.
  unfold QList.size in *.
  destruct (lookup_lt_is_Some_2 l (Z.to_nat from)) as [x Hx]; [lia|].
  rewrite Hx in Hat.
  unfold QList.move.
  rewrite !(proj2 (inRange_true l' _)) by (split; lia). simpl.
  rewrite (proj2 (at_Done l' to x)) by (split; [lia|done]).
  rewrite bind_Done, Hdel.
  rewrite take_delete_self, drop_delete_self by lia.
  by rewrite take_drop_middle.
Qed.

End More_lists.

(** ** Row numbers and single moves *)

Section More_rows.
Context {E : QRegExp.Engine}.
Import ClipboardModel.
Implicit Types (m : ClipboardModel.t).

Lemma rowCount_nonneg m : 0 ≤ rowCount m.
Proof. unfold rowCount, QList.size. lia. Qed.

Lemma with_list_same m : with_list m (m_clipboardList m) = m.
Proof. by destruct m. Qed.

(** X1. [getRowNumber] answers [-1] exactly on the empty model; on a
    model with rows its answer is a row of the model, whatever the
    argument and in both modes. *)
Theorem getRowNumber_range m (row : Z) (cycle : bool) :
  (getRowNumber m row cycle = -1 ↔ rowCount m = 0)
  ∧ (rowCount m ≠ 0 → 0 ≤ getRowNumber m row cycle < rowCount m).
Proof.
  pose proof (rowCount_nonneg m). unfold getRowNumber.
  destruct (Z.eqb_spec (rowCount m) 0) as [Hn|Hn]; [by split|].
  destruct (Z.leb_spec (rowCount m) row), (Z.ltb_spec row 0), cycle;
    split; (split; lia) || (intros; lia).
Qed.

(** X2. Without cycling, [getRowNumber] clamps its argument to the
    nearest row; in both modes a row of the model is returned as it is,
    and a second application changes nothing. *)
Theorem getRowNumber_clamp m (row : Z) (cycle cycle' : bool) :
  (rowCount m ≠ 0 →
   getRowNumber m row false = Z.max 0 (Z.min (rowCount m - 1) row))
  ∧ (0 ≤ row < rowCount m → getRowNumber m row cycle = row)
  ∧ getRowNumber m (getRowNumber m row cycle) cycle' = getRowNumber m row cycle.
Proof.
  pose proof (rowCount_nonneg m). unfold getRowNumber.
  destruct (Z.eqb_spec (rowCount m) 0) as [Hn|Hn].
  { split; [done|]. split; [lia|done]. }
  split; [|split].
  - intros _. destruct (Z.leb_spec (rowCount m) row), (Z.ltb_spec row 0); lia.
  - intros Hr. destruct (Z.leb_spec (rowCount m) row), (Z.ltb_spec row 0); lia.
  - destruct (Z.leb_spec (rowCount m) row), (Z.ltb_spec row 0), cycle;
      repeat match goal with
             | |- context [Z.leb ?a ?b] => destruct (Z.leb_spec a b); try lia
             | |- context [Z.ltb ?a ?b] => destruct (Z.ltb_spec a b); try lia
             end.
Qed.

Lemma move_empty m (pos newpos : Z) :
  rowCount m = 0 → move m pos newpos = Done (m, false).
Proof. intros Hn. unfold move, getRowNumber. by rewrite Hn. Qed.

Lemma move_nonempty m (pos newpos : Z) :
  rowCount m ≠ 0 →
  move m pos newpos
  = if cyclic_row (rowCount m) pos =? cyclic_row (rowCount m) newpos
    then Done (m, false)
    else l ← QList.move (m_clipboardList m)
               (cyclic_row (rowCount m) pos) (cyclic_row (rowCount m) newpos);
         Done (with_list m l, true).
Proof.
  intros Hn.
  destruct (getRowNumber_cyclic m pos Hn) as [Hf Hfr].
  destruct (getRowNumber_cyclic m newpos Hn) as [Ht Htr].
  unfold move. rewrite Hf, Ht, beginMoveRows_single.
  destruct (Z.eqb_spec (cyclic_row (rowCount m) pos) (-1)); [lia|].
  destruct (Z.eqb_spec (cyclic_row (rowCount m) newpos) (-1)); [lia|].
  simpl. by destruct (Z.eqb_spec (cyclic_row (rowCount m) pos)
                        (cyclic_row (rowCount m) newpos)).
Qed.

Lemma cyclic_row_range (n row : Z) : 0 < n → 0 ≤ cyclic_row n row < n.
Proof.
  intros Hn. unfold cyclic_row.
  destruct (Z.leb_spec n row), (Z.ltb_spec row 0); lia.
Qed.

(** What any call of [move] comes to. *)
Lemma move_outcome m (pos newpos : Z) :
  ∃ m' moved,
    move m pos newpos = Done (m', moved)
    ∧ m_clipboardList m' ≡ₚ m_clipboardList m
    ∧ rowCount m' = rowCount m
    ∧ m_re m' = m_re m
    ∧ (moved = false → m' = m).
Proof.
  pose proof (rowCount_nonneg m).
  destruct (Z.eq_dec (rowCount m) 0) as [Hn|Hn].
  { exists m, false. by rewrite move_empty. }
  rewrite move_nonempty by done.
  destruct (Z.eqb_spec (cyclic_row (rowCount m) pos)
              (cyclic_row (rowCount m) newpos)); [by exists m, false|].
  pose proof (cyclic_row_range (rowCount m) pos ltac:(lia)) as Hf.
  pose proof (cyclic_row_range (rowCount m) newpos ltac:(lia)) as Ht.
  destruct (move_relocated (m_clipboardList m) _ _ Hf Ht) as (l' & -> & Hrel).
  rewrite bind_Done. exists (with_list m l'), true. split; [done|].
  split; [|split; [|done]].
  - simpl. eapply relocated_Permutation; [|done].
    unfold rowCount, QList.size in *. lia.
  - unfold rowCount, QList.size. simpl. destruct Hrel as [-> _]. done.
Qed.

(** X3. Whatever its arguments, [move] ends without reaching outside
    the list; the model afterwards holds the same items (a permutation
    of the list), the same number of rows and the same search
    expression, and when [move] returns false the model is the one it
    was given. *)
Theorem move_permutes m (pos newpos : Z) :
  ∃ m' moved,
    move m pos newpos = Done (m', moved)
    ∧ m_clipboardList m' ≡ₚ m_clipboardList m
    ∧ rowCount m' = rowCount m
    ∧ m_re m' = m_re m
    ∧ (moved = false → m' = m).
Proof. apply move_outcome. Qed.

(** X4. A move that succeeded is undone by the move with the two
    arguments exchanged. *)
Theorem move_undo m m' (pos newpos : Z) :
  move m pos newpos = Done (m', true) →
  move m' newpos pos = Done (m, true).
Proof.
  intros Hmove.
  destruct (Z.eq_dec (rowCount m) 0) as [Hn|Hn].
  { by rewrite move_empty in Hmove. }
  rewrite move_nonempty in Hmove by done.
  destruct (Z.eqb_spec (cyclic_row (rowCount m) pos)
              (cyclic_row (rowCount m) newpos)) as [|Hne]; [done|].
  destruct (QList.move _ _ _) as [l'| |] eqn:Hl; [|done..].
  rewrite bind_Done in Hmove. injection Hmove as <-.
  assert (rowCount (with_list m l') = rowCount m) as Hcount.
  { pose proof (rowCount_nonneg m).
    destruct (move_relocated (m_clipboardList m)
                (cyclic_row (rowCount m) pos) (cyclic_row (rowCount m) newpos))
      as (l'' & Hl'' & Hlen & _);
      [apply cyclic_row_range; unfold rowCount, QList.size in *; lia..|].
    rewrite Hl in Hl''. injection Hl'' as <-.
    unfold rowCount, QList.size. simpl. by rewrite Hlen. }
  rewrite move_nonempty by (by rewrite Hcount).
  rewrite Hcount.
  destruct (Z.eqb_spec (cyclic_row (rowCount m) newpos)
              (cyclic_row (rowCount m) pos)); [congruence|].
  simpl. rewrite (move_back _ _ _ _ Hl), bind_Done.
  by destruct m.
Qed.

Lemma move_swap m (l1 l2 : list ClipboardItem.t) (a b : ClipboardItem.t) :
  m_clipboardList m = l1 ++ a :: b :: l2 →
  let r := Z.of_nat (length l1) in
  move m r (r + 1) = Done (with_list m (l1 ++ b :: a :: l2), true)
  ∧ move m (r + 1) r = Done (with_list m (l1 ++ b :: a :: l2), true).
Proof.
  intros Hl r.
  assert (r = Z.of_nat (length l1)) as Hr0 by done. clearbody r.
  assert (rowCount m = r + 2 + Z.of_nat (length l2)) as Hcount.
  { unfold rowCount, QList.size. rewrite Hl, length_app. simpl. lia. }
  assert (cyclic_row (rowCount m) r = r) as Hr.
  { unfold cyclic_row.
    destruct (Z.leb_spec (rowCount m) r), (Z.ltb_spec r 0); lia. }
  assert (cyclic_row (rowCount m) (r + 1) = r + 1) as Hr1.
  { unfold cyclic_row.
    destruct (Z.leb_spec (rowCount m) (r + 1)), (Z.ltb_spec (r + 1) 0); lia. }
  assert (length (l1 ++ a :: b :: l2) = S (S (length l1 + length l2))) as Hlen
    by (rewrite length_app; simpl; lia).
  rewrite !move_nonempty by lia. rewrite Hr, Hr1.
  destruct (Z.eqb_spec r (r + 1)); [lia|].
  destruct (Z.eqb_spec (r + 1) r); [lia|].
  unfold QList.move. rewrite Hl.
  rewrite !(proj2 (inRange_true _ _)) by (rewrite Hlen; lia). simpl.
  replace (Z.to_nat (r + 1)) with (S (length l1)) by lia.
  replace (Z.to_nat r) with (length l1) by lia.
  split.
  - rewrite (proj2 (at_Done _ r a)).
    2:{ split; [lia|]. replace (Z.to_nat r) with (length l1) by lia.
        by rewrite list_lookup_middle. }
    rewrite bind_Done, delete_middle.
    rewrite (cons_middle b l1 l2), app_assoc.
    rewrite take_app_length', drop_app_length'
      by (rewrite length_app; simpl; lia).
    simpl. do 2 f_equal. by rewrite <- app_assoc.
  - rewrite (proj2 (at_Done _ (r + 1) b)).
    2:{ split; [lia|]. replace (Z.to_nat (r + 1)) with (S (length l1)) by lia.
        rewrite (cons_middle a l1), app_assoc.
        rewrite list_lookup_middle; [done|]. rewrite length_app. simpl. lia. }
    rewrite bind_Done.
    replace (delete (S (length l1)) (l1 ++ a :: b :: l2)) with (l1 ++ a :: l2).
    2:{ replace (S (length l1)) with (length (l1 ++ [a]))
          by (rewrite length_app; simpl; lia).
        rewrite (cons_middle a l1 (b :: l2)), app_assoc, delete_middle.
        by rewrite <- app_assoc. }
    by rewrite take_app_length', drop_app_length'.
Qed.

(** X5. Moving a row down by one and moving the row below it up by one
    are the same operation: either exchanges the two rows and leaves
    every other row where it is. *)
Theorem move_adjacent m (l1 l2 : list ClipboardItem.t) (a b : ClipboardItem.t) :
  m_clipboardList m = l1 ++ a :: b :: l2 →
  let r := Z.of_nat (length l1) in
  move m r (r + 1) = Done (with_list m (l1 ++ b :: a :: l2), true)
  ∧ move m (r + 1) r = Done (with_list m (l1 ++ b :: a :: l2), true).
Proof. apply move_swap. Qed.

End More_rows.

(** ** Moving a selection *)

Lemma sort_insert_length (x : QModelIndex) (l : list QModelIndex) :
  length (sort_insert x l) = S (length l).
Proof.
  induction l as [|y l IH]; [done|]. simpl.
  destruct (index_lt y x); simpl; by rewrite ?IH.
Qed.

Lemma qSort_length (l : list QModelIndex) : length (qSort l) = length l.
Proof.
  induction l as [|x l IH]; [done|]. simpl.
  by rewrite sort_insert_length, IH.
Qed.

Lemma sort_insert_perm (x : QModelIndex) (l : list QModelIndex) :
  sort_insert x l ≡ₚ x :: l.
Proof.
  induction l as [|y l IH]; [done|]. simpl.
  destruct (index_lt y x); [|done].
  rewrite IH. apply Permutation_swap.
Qed.

(** [qSort] keeps the indexes it is given, *)
Lemma qSort_perm (l : list QModelIndex) : qSort l ≡ₚ l.
Proof.
  induction l as [|x l IH]; [done|]. simpl.
  by rewrite sort_insert_perm, IH.
Qed.

Lemma index_lt_false (x y : QModelIndex) :
  index_lt y x = false ↔
  row x < row y ∨ (row x = row y ∧ column x ≤ column y).
Proof.
  unfold index_lt.
  destruct (Z.ltb_spec (row y) (row x)), (Z.eqb_spec (row y) (row x)),
    (Z.ltb_spec (column y) (column x)); simpl; split; intros; try done; lia.
Qed.

Lemma sort_insert_sorted (x : QModelIndex) (l : list QModelIndex) :
  StronglySorted (λ a b, index_lt b a = false) l →
  StronglySorted (λ a b, index_lt b a = false) (sort_insert x l).
Proof.
  induction 1 as [|y l Hs IH Hy]; simpl.
  { repeat constructor. }
  destruct (index_lt y x) eqn:Hyx.
  - constructor; [done|].
    rewrite sort_insert_perm. constructor; [|done].
    apply index_lt_false. unfold index_lt in Hyx.
    destruct (Z.ltb_spec (row y) (row x)); [lia|]. simpl in Hyx.
    destruct (Z.eqb_spec (row y) (row x)); [|done]. simpl in Hyx. lia.
  - constructor; [by constructor|].
    constructor; [done|].
    eapply Forall_impl; [exact Hy|]. intros z Hz. simpl in Hz.
    apply index_lt_false in Hz, Hyx. apply index_lt_false. lia.
Qed.

(** and puts them in the order of [operator<]: no index is less
    than one before it. *)
Lemma qSort_sorted (l : list QModelIndex) :
  StronglySorted (λ a b, index_lt b a = false) (qSort l).
Proof.
  induction l as [|x l IH]; [constructor|]. simpl.
  by apply sort_insert_sorted.
Qed.

(** The sorted list begins with an index of the least row. *)
Lemma qSort_head (l : list QModelIndex) :
  l ≠ [] →
  ∃ x rest, qSort l = x :: rest ∧ x ∈ l ∧ ∀ y, y ∈ l → row x ≤ row y.
Proof.
  induction l as [|x l IH]; [done|]. intros _. simpl.
  destruct l as [|x' l'].
  { exists x, []. repeat split; [apply elem_of_cons; by left|].
    intros y ->%list_elem_of_singleton. lia. }
  destruct IH as (z & rest & Hs & Hz & Hmin); [done|].
  rewrite Hs. simpl. unfold index_lt.
  destruct (Z.ltb_spec (row z) (row x)) as [Hlt|Hge]; simpl.
  - exists z, (sort_insert x rest). split; [done|]. split; [apply elem_of_cons; by right|].
    intros y [->|Hy]%elem_of_cons; [lia|by apply Hmin].
  - destruct (Z.eqb_spec (row z) (row x)) as [Heq|Hne]; simpl.
    + destruct (column z <? column x).
      * exists z, (sort_insert x rest). split; [done|]. split; [apply elem_of_cons; by right|].
        intros y [->|Hy]%elem_of_cons; [lia|by apply Hmin].
      * exists x, (z :: rest). split; [done|]. split; [apply elem_of_cons; by left|].
        intros y [->|Hy]%elem_of_cons; [lia|]. specialize (Hmin y Hy). lia.
    + exists x, (z :: rest). split; [done|]. split; [apply elem_of_cons; by left|].
      intros y [->|Hy]%elem_of_cons; [lia|]. specialize (Hmin y Hy). lia.
Qed.

Section More_selection.
Context {E : QRegExp.Engine}.
Import ClipboardModel.
Implicit Types (m : ClipboardModel.t).

Lemma at_in_range {A : Type} (l : list A) (i : Z) :
  0 ≤ i < QList.size l → ∃ x, QList.at_ l i = Done x ∧ l !! Z.to_nat i = Some x.
Proof.
  unfold QList.size. intros Hi.
  destruct (lookup_lt_is_Some_2 l (Z.to_nat i)) as [x Hx]; [lia|].
  exists x. split; [|done]. apply at_Done. split; [lia|done].
Qed.

(** The index the loop of [moveItems] reads in round [i]. *)
Lemma moveItems_index (list : list QModelIndex) (key i : Z) :
  0 ≤ i < QList.size list →
  ∃ index,
    (if (key =? Qt.Key_Down) || (key =? Qt.Key_End)
     then QList.at_ list (QList.size list - 1 - i)
     else QList.at_ list i) = Done index.
Proof.
  intros Hi. destruct ((key =? Qt.Key_Down) || (key =? Qt.Key_End)).
  - destruct (at_in_range list (QList.size list - 1 - i)) as (x & -> & _);
      [lia|by exists x].
  - destruct (at_in_range list i) as (x & -> & _); [lia|by exists x].
Qed.

Lemma moveItems_loop_outcome (n : nat) (i : Z) (list : list QModelIndex)
    (key : Z) m (res : bool) :
  0 ≤ i → i + Z.of_nat n = QList.size list →
  ∃ m' res',
    moveItems_loop n i list key m res = Done (m', res')
    ∧ m_clipboardList m' ≡ₚ m_clipboardList m
    ∧ rowCount m' = rowCount m
    ∧ m_re m' = m_re m.
Proof.
  revert i m res. induction n as [|n IH]; intros i m res Hi Hn.
  { by exists m, res. }
  cbn [moveItems_loop].
  destruct (moveItems_index list key i) as [index ->]; [lia|].
  rewrite bind_Done.
  match goal with |- context [move m ?f ?t] =>
    destruct (move_outcome m f t) as (m1 & moved & -> & Hperm & Hcount & Hre & _)
  end.
  rewrite bind_Done. destruct moved; simpl.
  - match goal with |- context [moveItems_loop n _ _ _ m1 ?r] =>
      destruct (IH (i + 1) m1 r) as (m' & res' & -> & Hperm' & Hcount' & Hre');
        [lia..|]
    end.
    exists m', res'. split; [done|].
    split; [by rewrite Hperm'|]. split; congruence.
  - by exists m1, false.
Qed.

(** X6. For every key and every selection whose rows are [int]s other
    than [INT_MIN] and [INT_MAX] (so that [from+1] and [from-1] stay in
    range), [moveItems] ends without reading outside the selection or
    the model, and the model afterwards holds the same items (a
    permutation of the list), the same number of rows and the same
    search expression. *)
Theorem moveItems_permutes m (list : list QModelIndex) (key : Z) :
  (∀ index, index ∈ list → INT_MIN < row index < INT_MAX) →
  ∃ m' res,
    moveItems m list key = Done (m', res)
    ∧ m_clipboardList m' ≡ₚ m_clipboardList m
    ∧ rowCount m' = rowCount m
    ∧ m_re m' = m_re m.
Proof.
  intros _. unfold moveItems. apply moveItems_loop_outcome; [lia|].
  unfold QList.size. lia.
Qed.

(** X7. With nothing selected, or on a model without rows, [moveItems]
    returns false and the model is the one it was given. *)
Theorem moveItems_nothing m (list : list QModelIndex) (key : Z) :
  list = [] ∨ rowCount m = 0 →
  moveItems m list key = Done (m, false).
Proof.
  intros [->|Hempty]; [done|]. unfold moveItems.
  pose proof (qSort_length list) as Hlen.
  destruct (qSort list) as [|x sorted] eqn:Hs; [done|].
  cbn [length moveItems_loop].
  destruct (moveItems_index (x :: sorted) key 0) as [index ->].
  { unfold QList.size. simpl. lia. }
  rewrite bind_Done. by rewrite move_empty.
Qed.

(** X8. [Key_Home] on a selection of rows (none negative) that includes
    row 0 moves nothing: the first move would take row 0 to row 0, is
    refused, and [moveItems] returns false at once with the model as it
    was. *)
Theorem moveItems_home_with_top m (list : list QModelIndex) :
  (∀ index, index ∈ list → 0 ≤ row index) →
  (∃ index, index ∈ list ∧ row index = 0) →
  moveItems m list Qt.Key_Home = Done (m, false).
Proof.
  intros Hpos (top & Htop & Hrow).
  destruct (Z.eq_dec (rowCount m) 0) as [Hn|Hn].
  { unfold moveItems.
    pose proof (qSort_length list) as Hlen.
    destruct (qSort list) as [|x sorted]; [done|].
    cbn [length moveItems_loop]. simpl. by rewrite move_empty. }
  destruct (qSort_head list) as (x & rest & Hs & Hx & Hmin); [by intros ->; apply elem_of_nil in Htop|].
  assert (row x = 0) as Hx0.
  { specialize (Hmin top Htop). specialize (Hpos x Hx). lia. }
  unfold moveItems. rewrite Hs. cbn [length moveItems_loop]. simpl.
  rewrite Hx0, move_nonempty by done.
  by rewrite Z.eqb_refl.
Qed.

End More_selection.

Lemma moveItems_permutes_witness :
  (∀ index, index ∈ [row_index 2; row_index 0] → INT_MIN < row index < INT_MAX)
  ∧ ∃ m' res,
      ClipboardModel.moveItems abc [row_index 2; row_index 0] Qt.Key_Up
      = Done (m', res)
      ∧ ClipboardModel.m_clipboardList m' ≡ₚ ClipboardModel.m_clipboardList abc
      ∧ ClipboardModel.rowCount m' = ClipboardModel.rowCount abc
      ∧ ClipboardModel.m_re m' = ClipboardModel.m_re abc.
Proof.
  assert (∀ index, index ∈ [row_index 2; row_index 0] →
                   INT_MIN < row index < INT_MAX) as H.
  { intros index Hin. apply elem_of_cons in Hin as [->|Hin]; [by vm_compute|].
    apply list_elem_of_singleton in Hin as ->. by vm_compute. }
  split; [exact H|].
  exact (moveItems_permutes abc [row_index 2; row_index 0] Qt.Key_Up H).
Defined.

Lemma moveItems_nothing_witness :
  ([row_index 0] = [] ∨ ClipboardModel.rowCount (ClipboardModel.create []) = 0)
  ∧ ClipboardModel.moveItems (ClipboardModel.create []) [row_index 0] Qt.Key_Up
    = Done (ClipboardModel.create [], false).
Proof.
  assert ([row_index 0] = [] ∨ ClipboardModel.rowCount (ClipboardModel.create []) = 0)
    as H by (right; reflexivity).
  split; [exact H|].
  exact (moveItems_nothing (ClipboardModel.create []) [row_index 0] Qt.Key_Up H).
Defined.

Lemma moveItems_home_with_top_witness :
  (∀ index, index ∈ [row_index 2; row_index 0] → 0 ≤ row index)
  ∧ (∃ index, index ∈ [row_index 2; row_index 0] ∧ row index = 0)
  ∧ ClipboardModel.moveItems abc [row_index 2; row_index 0] Qt.Key_Home
    = Done (abc, false).
Proof.
  assert (∀ index, index ∈ [row_index 2; row_index 0] → 0 ≤ row index) as H1.
  { intros index Hin. apply elem_of_cons in Hin as [->|Hin]; [simpl; lia|].
    apply list_elem_of_singleton in Hin as ->. simpl. lia. }
  assert (∃ index, index ∈ [row_index 2; row_index 0] ∧ row index = 0) as H2.
  { exists (row_index 0). split; [|done].
    apply elem_of_cons. right. by apply list_elem_of_singleton. }
  split; [exact H1|]. split; [exact H2|].
  exact (moveItems_home_with_top abc [row_index 2; row_index 0] H1 H2).
Defined.

Lemma move_undo_witness :
  ClipboardModel.move abc (-1) 5
  = Done (ClipboardModel.with_list abc
            (ClipboardItem.of_string <$> ["c"; "a"; "b"]%string), true)
  ∧ ClipboardModel.move
      (ClipboardModel.with_list abc
         (ClipboardItem.of_string <$> ["c"; "a"; "b"]%string)) 5 (-1)
    = Done (abc, true).
Proof.
  assert (ClipboardModel.move abc (-1) 5
          = Done (ClipboardModel.with_list abc
                    (ClipboardItem.of_string <$> ["c"; "a"; "b"]%string), true))
    as H by (by vm_compute).
  split; [exact H|]. exact (move_undo abc _ (-1) 5 H).
Defined.

Lemma move_adjacent_witness :
  ClipboardModel.m_clipboardList abc
  = [ClipboardItem.of_string "a"]
    ++ ClipboardItem.of_string "b" :: ClipboardItem.of_string "c" :: []
  ∧ ClipboardModel.move abc 1 2
    = Done (ClipboardModel.with_list abc
              (ClipboardItem.of_string <$> ["a"; "c"; "b"]%string), true)
  ∧ ClipboardModel.move abc 2 1
    = Done (ClipboardModel.with_list abc
              (ClipboardItem.of_string <$> ["a"; "c"; "b"]%string), true).
Proof.
  split; [reflexivity|].
  exact (move_adjacent abc [ClipboardItem.of_string "a"] []
           (ClipboardItem.of_string "b") (ClipboardItem.of_string "c") eq_refl).
Defined.

Lemma getRowNumber_range_witness :
  ClipboardModel.rowCount abc ≠ 0
  ∧ 0 ≤ ClipboardModel.getRowNumber abc 7 false < ClipboardModel.rowCount abc.
Proof.
  assert (ClipboardModel.rowCount abc ≠ 0) as H by (by vm_compute).
  split; [exact H|].
  exact (proj2 (getRowNumber_range abc 7 false) H).
Defined.

Lemma getRowNumber_clamp_witness :
  ClipboardModel.rowCount abc ≠ 0
  ∧ ClipboardModel.getRowNumber abc 7 false
    = Z.max 0 (Z.min (ClipboardModel.rowCount abc - 1) 7).
Proof.
  assert (ClipboardModel.rowCount abc ≠ 0) as H by (by vm_compute).
  split; [exact H|].
  exact (proj1 (getRowNumber_clamp abc 7 false false) H).
Defined.

(** ** Inserting and removing rows, at any position *)

Section More_insert_remove.
Context {E : QRegExp.Engine}.
Import ClipboardModel.
Implicit Types (m : ClipboardModel.t) (l : list ClipboardItem.t).

Lemma remove_loop_any (k : nat) (p : Z) l :
  0 ≤ p →
  remove_loop k p l = take (Z.to_nat p) l ++ drop (Z.to_nat p + k) l.
Proof.
  intros Hp. revert l. induction k as [|k IH]; intros l.
  - simpl. by rewrite Nat.add_0_r, take_drop.
  - cbn [remove_loop]. rewrite IH.
    destruct (decide (Z.to_nat p < length l)%nat) as [Hlt|Hge].
    + rewrite removeAt_take_drop by (unfold QList.size; lia).
      assert (length (take (Z.to_nat p) l) = Z.to_nat p) as Htk
        by (rewrite length_take; lia).
      rewrite take_app_length' by done.
      rewrite drop_app_add' by done.
      rewrite drop_drop. do 2 f_equal. lia.
    + unfold QList.removeAt.
      destruct (QList.inRange l p) eqn:Hr.
      { apply inRange_true in Hr. lia. }
      by rewrite !drop_ge by lia.
Qed.

Lemma remove_loop_negative (k : nat) (p : Z) l :
  p < 0 → remove_loop k p l = l.
Proof.
  intros Hp. revert l. induction k as [|k IH]; intros l; [done|].
  cbn [remove_loop]. rewrite IH. unfold QList.removeAt.
  destruct (QList.inRange l p) eqn:Hr; [|done].
  apply inRange_true in Hr. lia.
Qed.

(** X9. [removeRows] at any position and with any count returns true
    and never removes a row outside [p .. p+n-1]: from a position
    [p >= 0] it leaves the rows before [p] followed by the rows from
    [p + n] on (those that exist; nothing goes when [n <= 0]), and from
    a negative position it removes nothing at all. *)
Theorem removeRows_any m (p n : Z) :
  let (m', ok) := removeRows m p n in
  ok = true
  ∧ m_re m' = m_re m
  ∧ (0 ≤ p →
     m_clipboardList m'
     = take (Z.to_nat p) (m_clipboardList m)
       ++ drop (Z.to_nat p + Z.to_nat n) (m_clipboardList m))
  ∧ (p < 0 → m' = m).
Proof.
  simpl. split; [done|]. split; [done|]. split.
  - intros Hp. by apply remove_loop_any.
  - intros Hp. rewrite remove_loop_negative by done. apply with_list_same.
Qed.

Abbreviation empty_item := (ClipboardItem.of_string EmptyString) (only parsing).





End More_insert_remove.


Lemma removeRows_any_witness :
  0 ≤ 2
  ∧ ClipboardModel.m_clipboardList (ClipboardModel.removeRows abc 2 5).1
    = take 2 (ClipboardModel.m_clipboardList abc)
      ++ drop (2 + 5) (ClipboardModel.m_clipboardList abc).
Proof.
  split; [lia|].
  pose proof (removeRows_any abc 2 5) as H.
  destruct (ClipboardModel.removeRows abc 2 5) as [m' ok].
  destruct H as (_ & _ & H & _). apply H. lia.
Defined.

(** ** Writing and reading back a row *)

Section More_setData.
Context {E : QRegExp.Engine}.
Import ClipboardModel.
Implicit Types (m : ClipboardModel.t).

Lemma isValid_row (index : QModelIndex) : isValid index = true → 0 ≤ row index.
Proof.
  unfold isValid. intros Hv.
  apply andb_true_iff in Hv as [Hv _]. apply andb_true_iff in Hv as [Hv _]. lia.
Qed.

(** What [setData] does when it accepts the call on a row of the
    list. *)
Lemma setData_accepted (repl : Repl) m (index : QModelIndex) (value : QVariant)
    (item : ClipboardItem.t) :
  isValid index = true →
  m_clipboardList m !! Z.to_nat (row index) = Some item →
  setData repl m index value Qt.EditRole
  = Done (repl,
          with_list m
            (<[Z.to_nat (row index) :=
                 ClipboardItem.setFiltered false
                   (if QVariant.isImage value
                    then ClipboardItem.setImage (QVariant.toImage value) item
                    else ClipboardItem.of_string (QVariant.toString value))]>
               (m_clipboardList m)),
          true).
Proof.
  intros Hv Hitem. pose proof (isValid_row index Hv) as Hrow.
  pose proof (lookup_lt_Some _ _ _ Hitem) as Hlt.
  unfold setData. rewrite Hv. simpl.
  assert (∀ item1 : ClipboardItem.t,
    ('(repl0, m0) ← setSearch_row repl
         (with_list m (<[Z.to_nat (row index) := item1]> (m_clipboardList m)))
         (row index) None;
     Done (repl0, m0, true))
    = Done (repl,
            with_list m
              (<[Z.to_nat (row index) := ClipboardItem.setFiltered false item1]>
                 (m_clipboardList m)), true)) as Hsearch.
  { intros item1. unfold setSearch_row. simpl.
    rewrite (proj2 (at_Done _ (row index) item1))
      by (split; [done|by apply list_lookup_insert_eq]).
    rewrite bind_Done.
    rewrite (modify_Done _ (row index) _ item1)
      by (done || by apply list_lookup_insert_eq).
    rewrite bind_Done. by rewrite list_insert_insert_eq. }
  destruct (QVariant.isImage value).
  - rewrite (modify_Done _ (row index) _ item) by done.
    rewrite bind_Done. apply Hsearch.
  - unfold QList.replace. rewrite (modify_Done _ (row index) _ item) by done.
    rewrite bind_Done. apply Hsearch.
Qed.

Lemma data_of_row m (index : QModelIndex) (role : Z) (item : ClipboardItem.t) :
  isValid index = true →
  m_clipboardList m !! Z.to_nat (row index) = Some item →
  data m index role
  = match ClipboardItem.image item with
    | Some image =>
        if (role =? Qt.DisplayRole) || (role =? Qt.EditRole)
        then Done (VImage image) else Done VInvalid
    | None =>
        if role =? Qt.DisplayRole then Done (VString (ClipboardItem.highlighted item))
        else if role =? Qt.EditRole then Done (VString (ClipboardItem.text item))
        else Done VInvalid
    end.
Proof.
  intros Hv Hitem. pose proof (isValid_row index Hv) as Hrow.
  pose proof (lookup_lt_Some _ _ _ Hitem) as Hlt.
  unfold data. rewrite Hv. simpl.
  destruct (Z.leb_spec (QList.size (m_clipboardList m)) (row index)) as [Hge|_].
  { unfold QList.size in Hge. lia. }
  rewrite (proj2 (at_Done _ (row index) item)) by done. rewrite bind_Done.
  destruct (ClipboardItem.image item); [|by repeat case_match].
  destruct (Z.eqb_spec role Qt.DisplayRole); [done|].
  by destruct (Z.eqb_spec role Qt.EditRole).
Qed.

(** X12. A text written with [setData] through a valid index of a row
    of the list, with the edit role, is what [data] reads back there
    with the edit role; the call returns true, the row comes out
    unfiltered, and the number of rows, every other row and the table of
    [escape] are as before. *)
Theorem setData_then_data (repl : Repl) m (index : QModelIndex) (s : QString) :
  isValid index = true →
  row index < rowCount m →
  ∃ m',
    setData repl m index (VString s) Qt.EditRole = Done (repl, m', true)
    ∧ data m' index Qt.EditRole = Done (VString s)
    ∧ isFiltered m' (row index) = Done false
    ∧ rowCount m' = rowCount m
    ∧ ∀ j : nat, j ≠ Z.to_nat (row index) →
        m_clipboardList m' !! j = m_clipboardList m !! j.
Proof.
  intros Hv Hlt. pose proof (isValid_row index Hv) as Hrow.
  destruct (lookup_lt_is_Some_2 (m_clipboardList m) (Z.to_nat (row index)))
    as [item Hitem]; [unfold rowCount, QList.size in Hlt; lia|].
  pose proof (lookup_lt_Some _ _ _ Hitem) as Hlen.
  eexists. split; [by apply (setData_accepted repl m index (VString s) item)|].
  simpl. split; [|split; [|split]].
  - erewrite data_of_row; [|done|by apply list_lookup_insert_eq]. done.
  - unfold isFiltered. simpl.
    erewrite (proj2 (at_Done _ _ _));
      [|split; [done|by apply list_lookup_insert_eq]]. done.
  - unfold rowCount, QList.size. simpl. by rewrite length_insert.
  - intros j Hj. simpl. by rewrite list_lookup_insert_ne.
Qed.

(** X13. An image written with [setData] through a valid index of a row
    of the list, with the edit role, is what [data] reads back there
    with the display role and with the edit role; the call returns true,
    the row comes out unfiltered, and every other row is as before. *)
Theorem setData_image_then_data (repl : Repl) m (index : QModelIndex)
    (image : QImage) (role : Z) :
  isValid index = true →
  row index < rowCount m →
  role = Qt.DisplayRole ∨ role = Qt.EditRole →
  ∃ m',
    setData repl m index (VImage image) Qt.EditRole = Done (repl, m', true)
    ∧ data m' index role = Done (VImage image)
    ∧ isFiltered m' (row index) = Done false
    ∧ ∀ j : nat, j ≠ Z.to_nat (row index) →
        m_clipboardList m' !! j = m_clipboardList m !! j.
Proof.
  intros Hv Hlt Hrole. pose proof (isValid_row index Hv) as Hrow.
  destruct (lookup_lt_is_Some_2 (m_clipboardList m) (Z.to_nat (row index)))
    as [item Hitem]; [unfold rowCount, QList.size in Hlt; lia|].
  pose proof (lookup_lt_Some _ _ _ Hitem) as Hlen.
  eexists. split; [by apply (setData_accepted repl m index (VImage image) item)|].
  simpl. split; [|split].
  - erewrite data_of_row; [|done|by apply list_lookup_insert_eq]. simpl.
    by destruct Hrole as [-> | ->].
  - unfold isFiltered. simpl.
    erewrite (proj2 (at_Done _ _ _));
      [|split; [done|by apply list_lookup_insert_eq]]. done.
  - intros j Hj. simpl. by rewrite list_lookup_insert_ne.
Qed.

(** X14. [setData] tests that the index is valid but not that its row
    is below the number of rows: with the edit role and a valid index at
    or past the end it goes on to access the list outside its bounds. *)
Theorem setData_past_end (repl : Repl) m (index : QModelIndex) (value : QVariant) :
  isValid index = true →
  rowCount m ≤ row index →
  setData repl m index value Qt.EditRole = OutOfRange.
Proof.
  intros Hv Hge. unfold setData. rewrite Hv. simpl.
  assert (QList.at_ (m_clipboardList m) (row index) = OutOfRange) as Hat.
  { unfold QList.at_.
    destruct (QList.inRange (m_clipboardList m) (row index)) eqn:Hr; [|done].
    apply inRange_true in Hr. unfold rowCount, QList.size in Hge. lia. }
  unfold QList.replace, QList.modify. rewrite Hat.
  by destruct (QVariant.isImage value).
Qed.

End More_setData.

Lemma setData_then_data_witness :
  isValid (row_index 1) = true
  ∧ row (row_index 1) < ClipboardModel.rowCount abc
  ∧ ∃ m',
      ClipboardModel.setData ∅ abc (row_index 1) (VString "z") Qt.EditRole
      = Done (∅, m', true)
      ∧ ClipboardModel.data m' (row_index 1) Qt.EditRole = Done (VString "z")
      ∧ ClipboardModel.isFiltered m' (row (row_index 1)) = Done false
      ∧ ClipboardModel.rowCount m' = ClipboardModel.rowCount abc
      ∧ ∀ j : nat, j ≠ Z.to_nat (row (row_index 1)) →
          ClipboardModel.m_clipboardList m' !! j
          = ClipboardModel.m_clipboardList abc !! j.
Proof.
  assert (row (row_index 1) < ClipboardModel.rowCount abc) as H by (by vm_compute).
  split; [reflexivity|]. split; [exact H|].
  exact (setData_then_data ∅ abc (row_index 1) "z" eq_refl H).
Defined.

Lemma setData_image_then_data_witness :
  isValid (row_index 0) = true
  ∧ row (row_index 0) < ClipboardModel.rowCount abc
  ∧ ∃ m',
      ClipboardModel.setData ∅ abc (row_index 0)
        (VImage {| img_width := 1; img_height := 1; img_bits := [255] |}) Qt.EditRole
      = Done (∅, m', true)
      ∧ ClipboardModel.data m' (row_index 0) Qt.DisplayRole
        = Done (VImage {| img_width := 1; img_height := 1; img_bits := [255] |})
      ∧ ClipboardModel.isFiltered m' (row (row_index 0)) = Done false
      ∧ ∀ j : nat, j ≠ Z.to_nat (row (row_index 0)) →
          ClipboardModel.m_clipboardList m' !! j
          = ClipboardModel.m_clipboardList abc !! j.
Proof.
  assert (row (row_index 0) < ClipboardModel.rowCount abc) as H by (by vm_compute).
  split; [reflexivity|]. split; [exact H|].
  exact (setData_image_then_data ∅ abc (row_index 0) _ Qt.DisplayRole
           eq_refl H (or_introl eq_refl)).
Defined.

Lemma setData_past_end_witness :
  isValid (row_index 3) = true
  ∧ ClipboardModel.rowCount abc ≤ row (row_index 3)
  ∧ ClipboardModel.setData ∅ abc (row_index 3) (VString "z") Qt.EditRole
    = OutOfRange.
Proof.
  assert (ClipboardModel.rowCount abc ≤ row (row_index 3)) as H by (by vm_compute).
  split; [reflexivity|]. split; [exact H|].
  exact (setData_past_end ∅ abc (row_index 3) (VString "z") eq_refl H).
Defined.

(** ** Searching one row, and all rows *)

Section More_search.
Context {E : QRegExp.Engine}.
Import ClipboardModel.
Implicit Types (m : ClipboardModel.t) (re : QRegExp.t) (str : QString).

(** The item [setSearch(i, re)] makes of an item: unfiltered and
    otherwise untouched when there is no expression or an empty one;
    else filtered and otherwise untouched when the first match is
    missing or empty, and unfiltered with the highlight of the
    successive matches when it is not. *)
Definition row_after (re : option QRegExp.t) (item item' : ClipboardItem.t) : Prop :=
  match re with
  | None => item' = ClipboardItem.setFiltered false item
  | Some re =>
      if QRegExp.isEmpty re then item' = ClipboardItem.setFiltered false item
      else ∃ ms,
          successive re (ClipboardItem.text item) 0 ms
          ∧ item' = match ms with
                    | [] => ClipboardItem.setFiltered true item
                    | _ :: _ =>
                        ClipboardItem.setHighlight
                          (spec_highlight (ClipboardItem.text item) ms)
                          (ClipboardItem.setFiltered false item)
                    end
  end.

Definition no_search (re : option QRegExp.t) : bool :=
  match re with None => true | Some re => QRegExp.isEmpty re end.

Lemma row_after_keeps (re : option QRegExp.t) (item item' : ClipboardItem.t) :
  row_after re item item' →
  ClipboardItem.text item' = ClipboardItem.text item
  ∧ ClipboardItem.image item' = ClipboardItem.image item.
Proof.
  unfold row_after. destruct re as [re|]; [|by intros ->].
  destruct (QRegExp.isEmpty re); [by intros ->|].
  intros ([|p ms] & _ & ->); done.
Qed.

Lemma row_after_no_search (re : option QRegExp.t) (item item' : ClipboardItem.t) :
  no_search re = true →
  row_after re item item' ↔ item' = ClipboardItem.setFiltered false item.
Proof.
  unfold row_after, no_search. destruct re as [re|]; [|done]. by intros ->.
Qed.

Lemma setSearch_row_any (repl : Repl) m (i : Z) (re : option QRegExp.t)
    (item : ClipboardItem.t) :
  repl_reachable repl → 0 ≤ i →
  m_clipboardList m !! Z.to_nat i = Some item →
  ∃ repl' item',
    setSearch_row repl m i re
    = Done (repl', with_list m (<[Z.to_nat i := item']> (m_clipboardList m)))
    ∧ row_after re item item'
    ∧ repl_reachable repl'
    ∧ (no_search re = true → repl' = repl).
Proof.
  intros Hr Hi Hitem.
  assert (no_search re = true →
          setSearch_row repl m i re
          = Done (repl, with_list m
                    (<[Z.to_nat i := ClipboardItem.setFiltered false item]>
                       (m_clipboardList m)))) as Hnone.
  { intros Hno. unfold setSearch_row.
    rewrite (proj2 (at_Done _ i item)) by done. rewrite bind_Done.
    rewrite (modify_Done _ i _ item) by done. rewrite bind_Done.
    destruct re as [re|]; [|done]. simpl in Hno. by rewrite Hno. }
  destruct (no_search re) eqn:Hno.
  - exists repl, (ClipboardItem.setFiltered false item).
    split; [by apply Hnone|]. split; [by apply row_after_no_search|]. done.
  - destruct re as [re|]; [|done]. simpl in Hno.
    destruct (setSearch_row_spec repl m i re item Hr Hi Hitem Hno)
      as (repl' & ms & Hms & Hr' & Hrun).
    eexists repl', _. split; [exact Hrun|]. split; [|done].
    unfold row_after. rewrite Hno. by exists ms.
Qed.

(** X15. For a row [i] of the list, [setSearch(i, re)] with any
    expression, or none, ends normally and touches nothing but the
    filter flag and the highlight of row [i]: every row keeps its text
    and its image, every other row is as before, and so are the number
    of rows and the model's own expression; with no expression or an
    empty one the row is unfiltered, its highlight is as before and
    [escape] is not called. *)
Theorem setSearch_row_frame (repl : Repl) m (i : Z) (re : option QRegExp.t)
    (item : ClipboardItem.t) :
  repl_reachable repl → 0 ≤ i →
  m_clipboardList m !! Z.to_nat i = Some item →
  ∃ repl' m' item',
    setSearch_row repl m i re = Done (repl', m')
    ∧ repl_reachable repl'
    ∧ m_clipboardList m' = <[Z.to_nat i := item']> (m_clipboardList m)
    ∧ ClipboardItem.text item' = ClipboardItem.text item
    ∧ ClipboardItem.image item' = ClipboardItem.image item
    ∧ rowCount m' = rowCount m
    ∧ m_re m' = m_re m
    ∧ (no_search re = true →
       item' = ClipboardItem.setFiltered false item ∧ repl' = repl).
Proof.
  intros Hr Hi Hitem.
  destruct (setSearch_row_any repl m i re item Hr Hi Hitem)
    as (repl' & item' & Hrun & Hafter & Hr' & Hrepl).
  destruct (row_after_keeps _ _ _ Hafter) as [Htext Himage].
  eexists repl', _, item'. split; [exact Hrun|].
  split; [done|]. split; [done|]. split; [done|]. split; [done|].
  split; [|split; [done|]].
  - unfold rowCount, QList.size. simpl. by rewrite length_insert.
  - intros Hno. split; [by apply (row_after_no_search re)|by apply Hrepl].
Qed.

(** The loop of [setSearch(re)] over the rows from [i] on. *)
Lemma setSearch_rows_spec (n : nat) (i : Z) (repl : Repl) m :
  repl_reachable repl → 0 ≤ i →
  i + Z.of_nat n = rowCount m →
  ∃ repl' l',
    setSearch_rows n i repl m = Done (repl', with_list m l')
    ∧ repl_reachable repl'
    ∧ (no_search (Some (m_re m)) = true → repl' = repl)
    ∧ take (Z.to_nat i) l' = take (Z.to_nat i) (m_clipboardList m)
    ∧ Forall2 (row_after (Some (m_re m)))
        (drop (Z.to_nat i) (m_clipboardList m)) (drop (Z.to_nat i) l').
Proof.
  revert i repl m. induction n as [|n IH]; intros i repl m Hr Hi Hn.
  { exists repl, (m_clipboardList m). rewrite with_list_same.
    split; [done|]. split; [done|]. split; [done|]. split; [done|].
    rewrite drop_ge by (unfold rowCount, QList.size in Hn; lia).
    constructor. }
  cbn [setSearch_rows].
  destruct (lookup_lt_is_Some_2 (m_clipboardList m) (Z.to_nat i)) as [item Hitem];
    [unfold rowCount, QList.size in Hn; lia|].
  pose proof (lookup_lt_Some _ _ _ Hitem) as Hlt.
  destruct (setSearch_row_any repl m i (Some (m_re m)) item Hr Hi Hitem)
    as (repl1 & item1 & -> & Hafter & Hr1 & Hrepl1).
  rewrite bind_Done.
  set (l1 := <[Z.to_nat i := item1]> (m_clipboardList m)).
  destruct (IH (i + 1) repl1 (with_list m l1)) as (repl' & l' & -> & Hr' & Hrepl' & Htake & Hdrop);
    [done|lia|unfold rowCount, QList.size in *; simpl; unfold l1;
              rewrite length_insert; lia|].
  simpl in *.
  replace (Z.to_nat (i + 1)) with (S (Z.to_nat i)) in * by lia.
  exists repl', l'. split; [done|]. split; [done|].
  split; [intros Hno; rewrite Hrepl', Hrepl1 by done; done|].
  assert (l' !! Z.to_nat i = Some item1) as Hitem1.
  { rewrite <- (lookup_take_lt l' (S (Z.to_nat i))) by lia. rewrite Htake.
    rewrite lookup_take_lt by lia. unfold l1. by apply list_lookup_insert_eq. }
  split.
  - assert (∀ k : list ClipboardItem.t,
              take (Z.to_nat i) k = take (Z.to_nat i) (take (S (Z.to_nat i)) k))
      as Htt by (intros k; rewrite take_take; f_equal; lia).
    rewrite (Htt l'), Htake, <- Htt. unfold l1.
    by rewrite take_insert_ge by lia.
  - rewrite (drop_S _ _ _ Hitem), (drop_S _ _ _ Hitem1).
    constructor; [done|].
    unfold l1 in Hdrop. by rewrite drop_insert_lt in Hdrop by lia.
Qed.

(** What [setSearch(re)] comes to: nothing when the search is the one
    already set; otherwise the new expression is stored and every row
    is searched with it. *)
Lemma setSearch_spec (repl : Repl) m (re : option QRegExp.t) :
  repl_reachable repl →
  let new := default QRegExp.null re in
  let same := match re with
              | None => QRegExp.isEmpty (m_re m)
              | Some re => QRegExp.eqb (m_re m) re
              end in
  (same = true → setSearch repl m re = Done (repl, m))
  ∧ (same = false →
     ∃ repl' l',
       setSearch repl m re
       = Done (repl', {| m_clipboardList := l'; m_re := new |})
       ∧ repl_reachable repl'
       ∧ (QRegExp.isEmpty new = true → repl' = repl)
       ∧ Forall2 (row_after (Some new)) (m_clipboardList m) l').
Proof.
  intros Hr new same. split.
  - unfold setSearch. subst same. destruct re as [re|]; by intros ->.
  - intros Hsame.
    assert (setSearch repl m re
            = setSearch_rows (Z.to_nat (rowCount m)) 0 repl (with_re m new)) as ->.
    { unfold setSearch. subst same new. destruct re as [re|]; by rewrite Hsame. }
    destruct (setSearch_rows_spec (Z.to_nat (rowCount m)) 0 repl (with_re m new))
      as (repl' & l' & -> & Hr' & Hrepl & _ & Hall); [done|lia|..].
    { pose proof (rowCount_nonneg m). unfold rowCount in *. simpl. lia. }
    exists repl', l'. by rewrite !drop_0 in Hall.
Qed.

Lemma Forall2_row_after_keeps (re : option QRegExp.t)
    (l l' : list ClipboardItem.t) :
  Forall2 (row_after re) l l' →
  length l' = length l
  ∧ ClipboardItem.text <$> l' = ClipboardItem.text <$> l
  ∧ ClipboardItem.image <$> l' = ClipboardItem.image <$> l.
Proof.
  induction 1 as [|item item' l l' Hafter _ (IH1 & IH2 & IH3)]; [done|].
  destruct (row_after_keeps _ _ _ Hafter) as [Ht Hi].
  by rewrite !fmap_cons, !length_cons, IH1, IH2, IH3, Ht, Hi.
Qed.

(** X16. [setSearch(re)], with any expression or none, ends normally
    on every model; the model afterwards has the same number of rows,
    and every row has the text and the image it had. *)
Theorem setSearch_keeps_items (repl : Repl) m (re : option QRegExp.t) :
  repl_reachable repl →
  ∃ repl' m',
    setSearch repl m re = Done (repl', m')
    ∧ repl_reachable repl'
    ∧ rowCount m' = rowCount m
    ∧ ClipboardItem.text <$> m_clipboardList m'
      = ClipboardItem.text <$> m_clipboardList m
    ∧ ClipboardItem.image <$> m_clipboardList m'
      = ClipboardItem.image <$> m_clipboardList m.
Proof.
  intros Hr. destruct (setSearch_spec repl m re Hr) as [Hsame Hnew].
  destruct (match re with
            | None => QRegExp.isEmpty (m_re m)
            | Some re => QRegExp.eqb (m_re m) re
            end) eqn:Hcase.
  - exists repl, m. by rewrite Hsame.
  - destruct (Hnew eq_refl) as (repl' & l' & -> & Hr' & _ & Hall).
    destruct (Forall2_row_after_keeps _ _ _ Hall) as (Hlen & Htext & Himage).
    eexists repl', _. split; [done|]. split; [done|].
    split; [|by split].
    unfold rowCount, QList.size. simpl. by rewrite Hlen.
Qed.

(** X17. After [setSearch(re)] with a non-empty expression that is
    not the one already set, the model's expression is [re] and every
    row is as [setSearch(i, re)] leaves it: filtered exactly when the
    search from the start of its text finds no match or the empty
    string, and otherwise unfiltered with the highlight of the
    successive matches. *)
Theorem setSearch_filters_rows (repl : Repl) m re :
  repl_reachable repl →
  QRegExp.isEmpty re = false →
  QRegExp.eqb (m_re m) re = false →
  ∃ repl' m',
    setSearch repl m (Some re) = Done (repl', m')
    ∧ m_re m' = re
    ∧ ∀ (i : nat) item, m_clipboardList m !! i = Some item →
      ∃ item',
        m_clipboardList m' !! i = Some item'
        ∧ (ClipboardItem.isFiltered item' = true
           ↔ QRegExp.indexIn re (ClipboardItem.text item) 0 = -1
             ∨ QRegExp.matchedLength re (ClipboardItem.text item) 0 = 0)
        ∧ (ClipboardItem.isFiltered item' = false →
           ∃ ms, successive re (ClipboardItem.text item) 0 ms
                 ∧ ClipboardItem.highlighted item'
                   = spec_highlight (ClipboardItem.text item) ms).
Proof.
  intros Hr Hre Hneq.
  destruct (setSearch_spec repl m (Some re) Hr) as [_ Hnew].
  destruct (Hnew Hneq) as (repl' & l' & -> & _ & _ & Hall).
  eexists repl', _. split; [done|]. split; [done|].
  intros i item Hitem. simpl.
  destruct (Forall2_lookup_l _ _ _ _ _ Hall Hitem) as (item' & Hitem' & Hafter).
  exists item'. split; [done|].
  unfold row_after in Hafter. simpl in Hafter. rewrite Hre in Hafter.
  destruct Hafter as (ms & Hms & ->).
  inversion Hms as [a Hstop|a ms' Hb Hlen Hrest]; subst; simpl.
  - split; [done|]. done.
  - split.
    + split; [done|]. by intros [?|?].
    + intros _. eexists. split; [exact Hms|done].
Qed.

(** X18. Clearing the search ([setSearch] with no expression) changes
    nothing when the model's expression is already empty; otherwise the
    model's expression becomes the empty one and every row is
    unfiltered, its text, image and highlight staying as they were, and
    [escape] is not called. *)
Theorem setSearch_clear (repl : Repl) m :
  repl_reachable repl →
  setSearch repl m None
  = if QRegExp.isEmpty (m_re m) then Done (repl, m)
    else Done (repl,
               {| m_clipboardList :=
                    ClipboardItem.setFiltered false <$> m_clipboardList m;
                  m_re := QRegExp.null |}).
Proof.
  intros Hr. destruct (setSearch_spec repl m None Hr) as [Hsame Hnew].
  destruct (QRegExp.isEmpty (m_re m)); [by apply Hsame|].
  destruct (Hnew eq_refl) as (repl' & l' & -> & _ & Hrepl & Hall).
  simpl in Hrepl, Hall.
  rewrite (Hrepl QRegExp.null_isEmpty). do 3 f_equal.
  clear -Hall. induction Hall as [|item item' l l' Hafter _ IH]; [done|].
  simpl. f_equal; [|done].
  apply (row_after_no_search (Some QRegExp.null)); [|done].
  apply QRegExp.null_isEmpty.
Qed.

End More_search.

Lemma setSearch_row_frame_witness :
  repl_reachable ∅ ∧ 0 ≤ 1
  ∧ ∃ repl' m' item',
      ClipboardModel.setSearch_row ∅ abc 1 (Some (Regex.Chr "b")) = Done (repl', m')
      ∧ repl_reachable repl'
      ∧ ClipboardModel.m_clipboardList m'
        = <[Z.to_nat 1 := item']> (ClipboardModel.m_clipboardList abc)
      ∧ ClipboardItem.text item' = "b"%string
      ∧ ClipboardItem.image item' = None
      ∧ ClipboardModel.rowCount m' = ClipboardModel.rowCount abc
      ∧ ClipboardModel.m_re m' = ClipboardModel.m_re abc
      ∧ (no_search (Some (Regex.Chr "b")) = true →
         item' = ClipboardItem.setFiltered false (ClipboardItem.of_string "b")
         ∧ repl' = ∅).
Proof.
  split; [apply repl_initial|]. split; [lia|].
  exact (setSearch_row_frame (E := Regex.engine) ∅ abc 1 (Some (Regex.Chr "b"))
           (ClipboardItem.of_string "b") repl_initial ltac:(lia) eq_refl).
Defined.

Lemma setSearch_keeps_items_witness :
  repl_reachable ∅
  ∧ ∃ repl' m',
      ClipboardModel.setSearch ∅ abc (Some (Regex.Chr "b")) = Done (repl', m')
      ∧ repl_reachable repl'
      ∧ ClipboardModel.rowCount m' = ClipboardModel.rowCount abc
      ∧ ClipboardItem.text <$> ClipboardModel.m_clipboardList m'
        = ClipboardItem.text <$> ClipboardModel.m_clipboardList abc
      ∧ ClipboardItem.image <$> ClipboardModel.m_clipboardList m'
        = ClipboardItem.image <$> ClipboardModel.m_clipboardList abc.
Proof.
  split; [apply repl_initial|].
  exact (setSearch_keeps_items (E := Regex.engine) ∅ abc (Some (Regex.Chr "b"))
           repl_initial).
Defined.

Lemma setSearch_filters_rows_witness :
  repl_reachable ∅
  ∧ QRegExp.isEmpty (Regex.Chr "b") = false
  ∧ QRegExp.eqb (ClipboardModel.m_re abc) (Regex.Chr "b") = false
  ∧ ∃ repl' m',
      ClipboardModel.setSearch ∅ abc (Some (Regex.Chr "b")) = Done (repl', m')
      ∧ ClipboardModel.m_re m' = Regex.Chr "b"
      ∧ ∀ (i : nat) item, ClipboardModel.m_clipboardList abc !! i = Some item →
        ∃ item',
          ClipboardModel.m_clipboardList m' !! i = Some item'
          ∧ (ClipboardItem.isFiltered item' = true
             ↔ QRegExp.indexIn (Regex.Chr "b") (ClipboardItem.text item) 0 = -1
               ∨ QRegExp.matchedLength (Regex.Chr "b") (ClipboardItem.text item) 0 = 0)
          ∧ (ClipboardItem.isFiltered item' = false →
             ∃ ms, successive (Regex.Chr "b") (ClipboardItem.text item) 0 ms
                   ∧ ClipboardItem.highlighted item'
                     = spec_highlight (ClipboardItem.text item) ms).
Proof.
  split; [apply repl_initial|]. split; [reflexivity|]. split; [reflexivity|].
  exact (setSearch_filters_rows (E := Regex.engine) ∅ abc (Regex.Chr "b")
           repl_initial eq_refl eq_refl).
Defined.

Example setSearch_run :
  ('(_, m) ← ClipboardModel.setSearch ∅ abc (Some (Regex.Chr "b"));
   Done (ClipboardItem.isFiltered <$> ClipboardModel.m_clipboardList m,
         ClipboardItem.highlighted <$> ClipboardModel.m_clipboardList m))
  = Done ([true; false; true],
          [EmptyString; span_open +:+ "b" +:+ span_close; EmptyString]).
Proof. by vm_compute. Qed.

Lemma setSearch_clear_witness :
  repl_reachable ∅
  ∧ ClipboardModel.setSearch ∅
      (ClipboardModel.with_re abc (Regex.Chr "b")) None
    = Done (∅, {| ClipboardModel.m_clipboardList :=
                    ClipboardItem.setFiltered false
                      <$> ClipboardModel.m_clipboardList abc;
                  ClipboardModel.m_re := Regex.Eps |}).
Proof.
  split; [apply repl_initial|].
  exact (setSearch_clear (E := Regex.engine) ∅
           (ClipboardModel.with_re abc (Regex.Chr "b")) repl_initial).
Defined.

(** ** More on [escape] *)

Lemma length_append (s t : QString) :
  String.length (s +:+ t) = (String.length s + String.length t)%nat.
Proof. induction s as [|c s IH]; [done|]. rewrite append_cons. simpl. by rewrite IH. Qed.

Lemma spec_escape_char_special (c : QChar) :
  is_special c = true →
  (4 ≤ String.length (spec_escape_char c))%nat
  ∧ repl_value (repl_fill ∅) c = spec_escape_char c.
Proof.
  destruct c as [[] [] [] [] [] [] [] []]; vm_compute; intros H;
    (discriminate H || (split; [repeat constructor|reflexivity])).
Qed.

Lemma repl_value_plain (c : QChar) :
  is_special c = false → repl_value (repl_fill ∅) c = EmptyString.
Proof.
  destruct c as [[] [] [] [] [] [] [] []]; vm_compute; congruence.
Qed.

Lemma spec_escape_length (s : QString) :
  (String.length s ≤ String.length (spec_escape s))%nat
  ∧ (String.length (spec_escape s) = String.length s ↔ has_special s = false).
Proof.
  induction s as [|c s [IHle IHeq]]; [done|].
  cbn [spec_escape has_special String.length]. rewrite length_append.
  destruct (is_special c) eqn:Hc; simpl.
  - destruct (spec_escape_char_special c Hc) as [Hlen _].
    split; [lia|]. split; [lia|done].
  - rewrite (spec_escape_char_plain c Hc). simpl.
    split; [lia|]. rewrite <- IHeq. lia.
Qed.

(** X19. [escape] never shortens a text: its result has at least as
    many characters as its argument, and exactly as many when, and only
    when, the argument has none of the six characters it rewrites. *)
Theorem escape_length (repl : Repl) (s : QString) :
  repl_reachable repl →
  (String.length s ≤ String.length (escape repl s).2)%nat
  ∧ (String.length (escape repl s).2 = String.length s ↔ has_special s = false).
Proof. intros Hr. rewrite (escape_spec repl s Hr). apply spec_escape_length. Qed.

Lemma escape_length_witness :
  repl_reachable ∅
  ∧ (String.length "a b" ≤ String.length (escape ∅ "a b").2)%nat
  ∧ (String.length (escape ∅ "a b").2 = String.length "a b"
     ↔ has_special "a b" = false).
Proof.
  split; [apply repl_initial|]. exact (escape_length ∅ "a b" repl_initial).
Defined.

Lemma index_keys (repl : Repl) (a c : QChar) :
  is_Some (repl !! c) ∨ c = a → is_Some ((QMap.index repl a).1 !! c).
Proof.
  unfold QMap.index. destruct (repl !! a) as [v|] eqn:Ha; simpl.
  - intros [Hc| ->]; [done|]. by rewrite Ha.
  - intros [Hc| ->].
    + destruct (decide (a = c)) as [->|Hne].
      * by rewrite lookup_insert_eq.
      * by rewrite lookup_insert_ne.
    + by rewrite lookup_insert_eq.
Qed.

Lemma escape_loop_keys (repl : Repl) (it res : QString) (c : QChar) :
  is_Some (repl !! c) ∨ c ∈ list_ascii_of_string it →
  is_Some ((escape_loop repl it res).1 !! c).
Proof.
  revert repl res. induction it as [|a it IH]; intros repl res.
  - simpl. intros [Hc|Hc]; [done|]. by apply elem_of_nil in Hc.
  - cbn [escape_loop list_ascii_of_string]. intros Hc.
    pose proof (index_keys repl a c) as Hkeys.
    destruct (QMap.index repl a) as [repl' str]. simpl in Hkeys.
    assert (is_Some (repl' !! c) ∨ c ∈ list_ascii_of_string it) as Hc'.
    { destruct Hc as [Hc|Hc]; [left; apply Hkeys; by left|].
      apply elem_of_cons in Hc as [->|Hc]; [left; apply Hkeys; by right|by right]. }
    destruct (QString.isEmpty str); by apply IH.
Qed.

Lemma repl_fill_keys (repl : Repl) (c : QChar) :
  is_Some (repl !! c) → is_Some (repl_fill repl !! c).
Proof.
  unfold repl_fill, QMap.isEmpty. intros Hc.
  case_bool_decide as Hemp; [|done].
  rewrite Hemp, lookup_empty in Hc. by destruct Hc.
Qed.

(** X20. The table of [escape] after a call, whatever calls came
    before: each of the six characters has its replacement; every other
    key has the empty string; the keys it had are still there; and
    every character of the text just escaped is now a key (looking a
    character up enters it). *)
Theorem escape_table (repl : Repl) (str : QString) :
  repl_reachable repl →
  (∀ c, is_special c = true → (escape repl str).1 !! c = Some (spec_escape_char c))
  ∧ (∀ c v, is_special c = false → (escape repl str).1 !! c = Some v →
            v = EmptyString)
  ∧ (∀ c, is_Some (repl !! c) → is_Some ((escape repl str).1 !! c))
  ∧ (∀ c, c ∈ list_ascii_of_string str → is_Some ((escape repl str).1 !! c)).
Proof.
  intros Hr.
  destruct (reachable_ok _ (repl_after_call repl str Hr)) as [Hemp|[_ Hval]].
  { pose proof (escape_loop_spec (repl_fill repl) str EmptyString
                  (repl_fill_ok _ (reachable_ok _ Hr))) as [[Hne _] _].
    by destruct Hne. }
  split; [|split; [|split]].
  - intros c Hc. specialize (Hval c).
    destruct (spec_escape_char_special c Hc) as [Hlen Htab].
    rewrite Htab in Hval. unfold repl_value in Hval.
    destruct ((escape repl str).1 !! c) as [v|]; simpl in Hval; [by subst|].
    rewrite <- Hval in Hlen. simpl in Hlen. lia.
  - intros c v Hc Hv. specialize (Hval c).
    rewrite (repl_value_plain c Hc) in Hval. unfold repl_value in Hval.
    by rewrite Hv in Hval.
  - intros c Hc. unfold escape. apply escape_loop_keys. left.
    by apply repl_fill_keys.
  - intros c Hc. unfold escape. apply escape_loop_keys. by right.
Qed.

Lemma escape_table_witness :
  repl_reachable ∅
  ∧ is_special "<" = true
  ∧ (escape ∅ "ab").1 !! "<"%char = Some (spec_escape_char "<").
Proof.
  split; [apply repl_initial|]. split; [reflexivity|].
  exact (proj1 (escape_table ∅ "ab" repl_initial) "<"%char eq_refl).
Defined.

(** ** Item flags *)

(** X21. An index is editable exactly when it is valid.  An invalid
    index is enabled and nothing else.  A valid index is selectable and
    enabled as well when it belongs to this model, and editable only
    when it belongs to another. *)
Theorem flags_by_validity (index : QModelIndex) (own : bool) :
  (Z.land (ClipboardModel.flags index own) Qt.ItemIsEditable = Qt.ItemIsEditable
   ↔ isValid index = true)
  ∧ (Z.land (ClipboardModel.flags index own) Qt.ItemIsEnabled = Qt.ItemIsEnabled
     ↔ isValid index = false ∨ own = true)
  ∧ (Z.land (ClipboardModel.flags index own) Qt.ItemIsSelectable
     = Qt.ItemIsSelectable
     ↔ isValid index = true ∧ own = true)
  ∧ (isValid index = false → ClipboardModel.flags index own = Qt.ItemIsEnabled)
  ∧ (isValid index = true → own = false →
     ClipboardModel.flags index own = Qt.ItemIsEditable).
Proof.
  unfold ClipboardModel.flags, ClipboardModel.base_flags.
  destruct (isValid index), own; vm_compute;
    repeat split; try congruence; try tauto;
    intros; try (left; congruence); try (right; congruence);
    intuition congruence.
Qed.

Lemma flags_by_validity_witness :
  isValid (row_index 1) = true
  ∧ ClipboardModel.flags (row_index 1) false = Qt.ItemIsEditable.
Proof.
  split; [reflexivity|].
  exact (proj2 (proj2 (proj2 (proj2 (flags_by_validity (row_index 1) false))))
           eq_refl eq_refl).
Defined.

(** ** Moving a selection to the top *)

(** The items of the rows [rs] of a list, in the order of [rs]. *)
Fixpoint pick_rows {A : Type} (rs : list nat) (l : list A) : list A :=
  match rs with
  | [] => []
  | r :: rs' =>
      match l !! r with
      | Some x => x :: pick_rows rs' l
      | None => pick_rows rs' l
      end
  end.

(** A list without its rows [rs] (given in increasing order): the rows
    are taken out from the last one to the first. *)
Definition drop_rows {A : Type} (rs : list nat) (l : list A) : list A :=
  foldr delete l rs.

Section Pick_drop.
Context {A : Type}.
Implicit Types (l : list A) (rs : list nat).

Lemma delete_delete_lt l (i j : nat) :
  (i < j)%nat → delete (j - 1)%nat (delete i l) = delete i (delete j l).
Proof.
  revert i j. induction l as [|x l IH]; intros i j Hij; [by destruct i, j|].
  destruct j as [|j]; [lia|]. destruct i as [|i]; simpl.
  - by rewrite Nat.sub_0_r.
  - destruct j as [|j]; [lia|]. simpl. f_equal.
    specialize (IH i (S j) ltac:(lia)). simpl in IH.
    by rewrite Nat.sub_0_r in IH.
Qed.

Lemma pick_rows_delete l (d : nat) rs :
  Forall (λ r, d < r)%nat rs →
  pick_rows (Nat.pred <$> rs) (delete d l) = pick_rows rs l.
Proof.
  induction 1 as [|r rs Hr _ IH]; [done|].
  rewrite fmap_cons. cbn [pick_rows].
  rewrite list_lookup_delete_ge by lia.
  replace (S (Nat.pred r)) with r by lia.
  by rewrite IH.
Qed.

Lemma drop_rows_delete l (d : nat) rs :
  Forall (λ r, d < r)%nat rs →
  drop_rows (Nat.pred <$> rs) (delete d l) = delete d (drop_rows rs l).
Proof.
  unfold drop_rows. induction 1 as [|r rs Hr _ IH]; [done|].
  rewrite fmap_cons. cbn [foldr].
  rewrite IH. replace (Nat.pred r) with (r - 1)%nat by lia.
  by apply delete_delete_lt.
Qed.

End Pick_drop.

Section More_home.
Context {E : QRegExp.Engine}.
Import ClipboardModel.
Implicit Types (m : ClipboardModel.t).

(** One round of the loop for [Key_Home]: the row [i + d] goes to row
    [i], behind the [i] items already at the top. *)
Lemma move_to_front m (pre suf : list ClipboardItem.t) (d : nat)
    (x : ClipboardItem.t) :
  m_clipboardList m = pre ++ suf →
  (1 ≤ d)%nat → suf !! d = Some x →
  move m (Z.of_nat (length pre + d)) (0 + Z.of_nat (length pre))
  = Done (with_list m ((pre ++ [x]) ++ delete d suf), true).
Proof.
  intros Hl Hd Hx. pose proof (lookup_lt_Some _ _ _ Hx) as Hlt.
  assert (rowCount m = Z.of_nat (length pre + length suf)) as Hcount.
  { unfold rowCount, QList.size. by rewrite Hl, length_app. }
  rewrite move_nonempty by lia. rewrite Hcount.
  assert (cyclic_row (Z.of_nat (length pre + length suf))
            (Z.of_nat (length pre + d)) = Z.of_nat (length pre + d)) as ->.
  { unfold cyclic_row.
    destruct (Z.leb_spec (Z.of_nat (length pre + length suf))
                (Z.of_nat (length pre + d))); [lia|].
    destruct (Z.ltb_spec (Z.of_nat (length pre + d)) 0); lia. }
  assert (cyclic_row (Z.of_nat (length pre + length suf))
            (0 + Z.of_nat (length pre)) = Z.of_nat (length pre)) as ->.
  { unfold cyclic_row.
    destruct (Z.leb_spec (Z.of_nat (length pre + length suf))
                (0 + Z.of_nat (length pre))); [lia|].
    destruct (Z.ltb_spec (0 + Z.of_nat (length pre)) 0); lia. }
  destruct (Z.eqb_spec (Z.of_nat (length pre + d)) (Z.of_nat (length pre)));
    [lia|].
  unfold QList.move. rewrite Hl.
  rewrite !(proj2 (inRange_true _ _)) by (rewrite length_app; lia). simpl.
  rewrite !Nat2Z.id.
  rewrite (proj2 (at_Done _ _ x)).
  2:{ split; [lia|]. rewrite Nat2Z.id, lookup_app_r by lia.
      by replace (length pre + d - length pre)%nat with d by lia. }
  rewrite bind_Done.
  assert (delete (length pre + d)%nat (pre ++ suf) = pre ++ delete d suf) as ->.
  { clear. induction pre as [|y pre IH]; [done|]. simpl. by rewrite IH. }
  rewrite take_app_length, drop_app_length.
  by rewrite <- app_assoc.
Qed.

Lemma moveItems_home_loop (k : nat) (i : nat) (sorted : list QModelIndex) m
    (pre suf : list ClipboardItem.t) (res : bool) (ds : list nat) :
  length sorted = (i + k)%nat →
  length pre = i →
  m_clipboardList m = pre ++ suf →
  row <$> drop i sorted = (λ d, Z.of_nat (i + d)) <$> ds →
  StronglySorted lt ds →
  Forall (λ d, 1 ≤ d < length suf)%nat ds →
  moveItems_loop k (Z.of_nat i) sorted Qt.Key_Home m res
  = Done (with_list m (pre ++ pick_rows ds suf ++ drop_rows ds suf),
          match k with O => res | S _ => res || (i =? 0)%nat end).
Proof.
  revert i m pre suf res ds.
  induction k as [|k IH]; intros i m pre suf res ds Hlen Hpre Hl Hrows Hsorted Hin.
  { rewrite drop_ge in Hrows by lia. symmetry in Hrows.
    apply fmap_nil_inv in Hrows as ->. simpl.
    rewrite <- Hl. by rewrite with_list_same. }
  destruct (lookup_lt_is_Some_2 sorted i) as [x Hx]; [lia|].
  rewrite (drop_S _ _ _ Hx) in Hrows.
  destruct ds as [|d ds]; [done|].
  rewrite !fmap_cons in Hrows. injection Hrows as Hrow Hrows.
  apply StronglySorted_inv in Hsorted as [Hsorted Hd].
  apply Forall_cons in Hin as [Hd1 Hin].
  destruct (lookup_lt_is_Some_2 suf d) as [item Hitem]; [lia|].
  cbn [moveItems_loop].
  change ((Qt.Key_Home =? Qt.Key_Down) || (Qt.Key_Home =? Qt.Key_End)) with false.
  cbv iota.
  rewrite (proj2 (at_Done sorted (Z.of_nat i) x))
    by (split; [lia|by rewrite Nat2Z.id]).
  rewrite bind_Done.
  change (Qt.Key_Home =? Qt.Key_Down) with false.
  change (Qt.Key_Home =? Qt.Key_Up) with false.
  change (Qt.Key_Home =? Qt.Key_End) with false.
  cbv iota. rewrite Hrow. subst i.
  rewrite (move_to_front m pre suf d item Hl) by (lia || done).
  rewrite bind_Done. cbv iota. simpl negb. cbv iota.
  assert (Forall (λ r, d < r)%nat ds) as Hgt.
  { apply Forall_forall. intros r Hr.
    by apply (proj1 (Forall_forall _ _) Hd). }
  replace (Z.of_nat (length pre) + 1) with (Z.of_nat (S (length pre))) by lia.
  rewrite (IH (S (length pre)) _ (pre ++ [item]) (delete d suf) _ (Nat.pred <$> ds)).
  - simpl. rewrite pick_rows_delete, drop_rows_delete by done.
    rewrite Hitem. unfold drop_rows. simpl. rewrite <- !app_assoc. simpl.
    f_equal.
    assert ((if negb res then 0 + Z.of_nat (length pre) =? 0 else res)
            = res || (length pre =? 0)%nat) as Hres.
    { destruct res; simpl; [done|].
      destruct (Nat.eqb_spec (length pre) 0), (Z.eqb_spec (0 + Z.of_nat (length pre)) 0);
        lia || done. }
    rewrite Hres. destruct k; [done|]. simpl. by rewrite orb_false_r.
  - lia.
  - rewrite length_app. simpl. lia.
  - done.
  - rewrite Hrows, <- list_fmap_compose. apply Forall_fmap_ext_1.
    eapply Forall_impl; [exact Hgt|]. intros r Hr.
    unfold compose. cbv beta in *. lia.
  - clear -Hsorted Hgt. induction Hsorted as [|r ds Hs IH Hr]; [constructor|].
    apply Forall_cons in Hgt as [Hr0 Hgt]. rewrite fmap_cons.
    constructor; [by apply IH|].
    apply Forall_fmap, Forall_forall. intros r' Hr'. simpl.
    pose proof (proj1 (Forall_forall _ _) Hr r' Hr').
    pose proof (proj1 (Forall_forall _ _) Hgt r' Hr'). cbv beta in *. lia.
  - apply Forall_fmap, Forall_forall. intros r Hr. simpl.
    pose proof (proj1 (Forall_forall _ _) Hgt r Hr).
    pose proof (proj1 (Forall_forall _ _) Hin r Hr) as Hr'.
    rewrite length_delete by eauto. cbv beta in *. lia.
Qed.

(** X22. [Key_Home] on a non-empty selection of distinct rows of the
    model, none of them row 0, returns true and brings the selected
    items to the top in the order of their rows, the other items
    following in the order they had. *)
Theorem moveItems_home m (sel : list QModelIndex) (rs : list nat) :
  sel ≠ [] →
  row <$> qSort sel = Z.of_nat <$> rs →
  StronglySorted lt rs →
  Forall (λ r, 1 ≤ r < length (m_clipboardList m))%nat rs →
  moveItems m sel Qt.Key_Home
  = Done (with_list m
            (pick_rows rs (m_clipboardList m) ++ drop_rows rs (m_clipboardList m)),
          true).
Proof.
  intros Hne Hrows Hsorted Hin. unfold moveItems.
  pose proof (qSort_length sel) as Hlen.
  pose proof (moveItems_home_loop (length (qSort sel)) 0 (qSort sel) m []
                (m_clipboardList m) false rs) as Hloop.
  change (Z.of_nat 0) with 0 in Hloop.
  rewrite Hloop by (done || exact Hrows).
  destruct (qSort sel); [|done].
  destruct sel; [done|]. simpl in Hlen. lia.
Qed.

End More_home.

Lemma moveItems_home_witness :
  [row_index 2; row_index 1] ≠ []
  ∧ row <$> qSort [row_index 2; row_index 1] = Z.of_nat <$> [1; 2]%nat
  ∧ StronglySorted lt [1; 2]%nat
  ∧ Forall (λ r, 1 ≤ r < length (ClipboardModel.m_clipboardList abc))%nat [1; 2]%nat
  ∧ ClipboardModel.moveItems abc [row_index 2; row_index 1] Qt.Key_Home
    = Done (ClipboardModel.with_list abc
              (ClipboardItem.of_string <$> ["b"; "c"; "a"]%string), true).
Proof.
  assert (StronglySorted lt [1; 2]%nat) as Hs.
  { repeat constructor. }
  assert (Forall (λ r, 1 ≤ r < length (ClipboardModel.m_clipboardList abc))%nat
            [1; 2]%nat) as Hin.
  { repeat constructor. }
  split; [done|]. split; [reflexivity|]. split; [exact Hs|]. split; [exact Hin|].
  exact (moveItems_home abc [row_index 2; row_index 1] [1; 2]%nat
           ltac:(done) eq_refl Hs Hin).
Defined.

(** ** The highlight is the escaped text with tags put in *)

Lemma substring_split (s : QString) (a n k : nat) :
  substring a (n + k) s = substring a n s +:+ substring (a + n) k s.
Proof.
  revert a n. induction s as [|c s IH]; intros a n.
  - by destruct a, n, k.
  - destruct a as [|a]; simpl.
    + destruct n as [|n]; simpl; [by destruct k|].
      rewrite append_cons. f_equal. apply (IH 0%nat n).
    + apply IH.
Qed.

Lemma substring_whole (s : QString) : substring 0 (String.length s) s = s.
Proof. induction s as [|c s IH]; [done|]. simpl. by rewrite IH. Qed.

Lemma mid_inside (s : QString) (a n : Z) :
  0 ≤ a → 0 ≤ n → a + n ≤ QString.length s →
  QString.mid s a n = substring (Z.to_nat a) (Z.to_nat n) s.
Proof.
  intros Ha Hn Han. unfold QString.mid.
  destruct (Z.ltb_spec (QString.length s) a); [lia|].
  destruct (Z.ltb_spec a 0); [lia|].
  destruct (Z.ltb_spec n 0); [lia|].
  destruct (Z.ltb_spec (QString.length s - a) n); [lia|]. done.
Qed.

Lemma mid_rest (s : QString) (a : Z) :
  0 ≤ a ≤ QString.length s →
  QString.mid s a (-1)
  = substring (Z.to_nat a) (Z.to_nat (QString.length s - a)) s.
Proof.
  intros Ha. unfold QString.mid.
  destruct (Z.ltb_spec (QString.length s) a); [lia|].
  destruct (Z.ltb_spec a 0); [lia|]. done.
Qed.

Lemma mid_whole (s : QString) : QString.mid s 0 (-1) = s.
Proof.
  rewrite mid_rest by (unfold QString.length; lia).
  unfold QString.length. rewrite Z.sub_0_r, Nat2Z.id. apply substring_whole.
Qed.

(** A match and what lies before it, cut off the rest of the text. *)
Lemma mid_three (s : QString) (a b len : Z) :
  0 ≤ a ≤ b → 0 ≤ len → b + len ≤ QString.length s →
  QString.mid s a (b - a) +:+ QString.mid s b len +:+ QString.mid s (b + len) (-1)
  = QString.mid s a (-1).
Proof.
  intros Hab Hlen Hend.
  rewrite !mid_inside, !mid_rest by lia.
  replace (Z.to_nat (QString.length s - a))
    with (Z.to_nat (b - a) + (Z.to_nat len + Z.to_nat (QString.length s - (b + len))))%nat
    by lia.
  rewrite !substring_split. do 2 f_equal; [f_equal; lia|].
  f_equal. lia.
Qed.

(** The escaped pieces of a text around its matches [ms], with [open]
    before and [close] after each match. *)
Fixpoint tagged (open close : QString) (str : QString) (a : Z)
    (ms : list (Z * Z)) : QString :=
  match ms with
  | [] => spec_escape (QString.mid str a (-1))
  | (b, len) :: ms' =>
      spec_escape (QString.mid str a (b - a)) +:+ open
      +:+ spec_escape (QString.mid str b len) +:+ close
      +:+ tagged open close str (b + len) ms'
  end.

(** Matches that follow one another from [a] inside a text of [size]
    characters: each begins at or after the end of the one before, is
    not empty, and ends inside the text. *)
Fixpoint in_order (size a : Z) (ms : list (Z * Z)) : Prop :=
  match ms with
  | [] => True
  | (b, len) :: ms' =>
      a ≤ b ∧ 0 < len ∧ b + len ≤ size ∧ in_order size (b + len) ms'
  end.

Section More_highlight.
Context {E : QRegExp.Engine}.
Import ClipboardModel.
Implicit Types (m : ClipboardModel.t) (re : QRegExp.t) (str : QString).

Lemma tagged_spans str (a : Z) (ms : list (Z * Z)) :
  tagged span_open span_close str a ms
  = spans str a ms +:+ spec_escape (QString.mid str (last_end a ms) (-1)).
Proof.
  revert a. induction ms as [|[b len] ms IH]; intros a; [done|].
  simpl. by rewrite IH, !append_assoc.
Qed.

Lemma successive_in_order re str (a : Z) (ms : list (Z * Z)) :
  0 ≤ a → successive re str a ms → in_order (QString.length str) a ms.
Proof.
  intros Ha Hms. induction Hms as [a _|a ms Hb Hlen _ IH]; [done|].
  destruct (QRegExp.indexIn_found re str a Ha Hb) as (Hab & Hl0 & Hend).
  simpl. split; [done|]. split; [lia|]. split; [done|]. apply IH. lia.
Qed.

Lemma tagged_plain str (a : Z) (ms : list (Z * Z)) :
  0 ≤ a → in_order (QString.length str) a ms →
  tagged EmptyString EmptyString str a ms = spec_escape (QString.mid str a (-1)).
Proof.
  revert a. induction ms as [|[b len] ms IH]; intros a Ha; [done|].
  simpl. intros (Hab & Hlen & Hend & Hrest).
  rewrite IH by (done || lia).
  rewrite !append_nil_l, <- !spec_escape_app.
  f_equal. apply mid_three; lia.
Qed.

Lemma in_order_count (size a : Z) (ms : list (Z * Z)) :
  in_order size a ms → a ≤ size → a + Z.of_nat (length ms) ≤ size.
Proof.
  revert a. induction ms as [|[b len] ms IH]; intros a; simpl; [lia|].
  intros (Hab & Hlen & Hend & Hrest) Ha.
  specialize (IH (b + len) Hrest Hend). lia.
Qed.

(** X23. When the first match of a non-empty expression in the text of
    row [i] is not empty, the highlight that [setSearch(i, re)] gives
    the row is the escaped text of the row with the opening tag put in
    before, and the closing tag after, each of the successive matches
    [ms] of the expression in it (there is at least one): with both
    tags taken away it is [escape] of the whole text, nothing lost,
    repeated or out of place. *)
Theorem setSearch_highlight_text (repl : Repl) m (i : Z) re item :
  repl_reachable repl → 0 ≤ i →
  m_clipboardList m !! Z.to_nat i = Some item →
  QRegExp.isEmpty re = false →
  QRegExp.indexIn re (ClipboardItem.text item) 0 ≠ -1 →
  QRegExp.matchedLength re (ClipboardItem.text item) 0 ≠ 0 →
  ∃ repl' m' item' ms,
    setSearch_row repl m i (Some re) = Done (repl', m')
    ∧ m_clipboardList m' !! Z.to_nat i = Some item'
    ∧ successive re (ClipboardItem.text item) 0 ms
    ∧ ms ≠ []
    ∧ ClipboardItem.highlighted item'
      = tagged span_open span_close (ClipboardItem.text item) 0 ms
    ∧ tagged EmptyString EmptyString (ClipboardItem.text item) 0 ms
      = (escape repl (ClipboardItem.text item)).2.
Proof.
  intros Hr Hi Hitem Hre Hb Hlen.
  destruct (setSearch_row_spec repl m i re item Hr Hi Hitem Hre)
    as (repl' & ms & Hms & _ & Hrun).
  pose proof (lookup_lt_Some _ _ _ Hitem) as Hlt.
  eexists repl', _, _, ms. split; [exact Hrun|].
  split; [by apply list_lookup_insert_eq|].
  split; [exact Hms|].
  split.
  { inversion Hms as [a Hstop|a ms' _ _ Hrest]; subst; [by destruct Hstop|done]. }
  split.
  - rewrite tagged_spans.
    inversion Hms as [a Hstop|a ms' _ _ Hrest]; subst; [by destruct Hstop|done].
  - rewrite tagged_plain, mid_whole, escape_spec; try done.
    by apply (successive_in_order re).
Qed.

(** X24. The successive matches [ms] of the expression in the text of
    a row, which [setSearch(i, re)] goes through and highlights, follow
    one another from left to right without overlap, none of them empty,
    all inside the text; there is at least one when the first match is
    not empty, and there are at most as many as the text has
    characters. *)
Theorem setSearch_matches_in_order (repl : Repl) m (i : Z) re item :
  repl_reachable repl → 0 ≤ i →
  m_clipboardList m !! Z.to_nat i = Some item →
  QRegExp.isEmpty re = false →
  QRegExp.indexIn re (ClipboardItem.text item) 0 ≠ -1 →
  QRegExp.matchedLength re (ClipboardItem.text item) 0 ≠ 0 →
  ∃ repl' m' item' ms,
    setSearch_row repl m i (Some re) = Done (repl', m')
    ∧ m_clipboardList m' !! Z.to_nat i = Some item'
    ∧ successive re (ClipboardItem.text item) 0 ms
    ∧ ms ≠ []
    ∧ ClipboardItem.highlighted item'
      = spec_highlight (ClipboardItem.text item) ms
    ∧ in_order (QString.length (ClipboardItem.text item)) 0 ms
    ∧ Z.of_nat (length ms) ≤ QString.length (ClipboardItem.text item).
Proof.
  intros Hr Hi Hitem Hre Hb Hlen.
  destruct (setSearch_row_spec repl m i re item Hr Hi Hitem Hre)
    as (repl' & ms & Hms & _ & Hrun).
  pose proof (lookup_lt_Some _ _ _ Hitem) as Hlt.
  pose proof (successive_in_order re _ 0 ms ltac:(lia) Hms) as Hord.
  eexists repl', _, _, ms. split; [exact Hrun|].
  split; [by apply list_lookup_insert_eq|].
  split; [exact Hms|].
  split.
  { inversion Hms as [a Hstop|a ms' _ _ Hrest]; subst; [by destruct Hstop|done]. }
  split; [|split; [done|]].
  - inversion Hms as [a Hstop|a ms' _ _ Hrest]; subst; [by destruct Hstop|done].
  - pose proof (in_order_count _ 0 ms Hord). unfold QString.length in *. lia.
Qed.

End More_highlight.

Lemma setSearch_highlight_text_witness :
  repl_reachable ∅ ∧ 0 ≤ 0
  ∧ ∃ repl' m' item' ms,
      ClipboardModel.setSearch_row ∅ (ClipboardModel.create ["a<b a"]%string) 0
        (Some (Regex.Chr "a")) = Done (repl', m')
      ∧ ClipboardModel.m_clipboardList m' !! Z.to_nat 0 = Some item'
      ∧ successive (Regex.Chr "a") "a<b a" 0 ms
      ∧ ms ≠ []
      ∧ ClipboardItem.highlighted item'
        = tagged span_open span_close "a<b a" 0 ms
      ∧ tagged EmptyString EmptyString "a<b a" 0 ms = (escape ∅ "a<b a").2.
Proof.
  split; [apply repl_initial|]. split; [lia|].
  apply (setSearch_highlight_text (E := Regex.engine) ∅
           (ClipboardModel.create ["a<b a"]%string) 0 (Regex.Chr "a")
           (ClipboardItem.of_string "a<b a")).
  - apply repl_initial.
  - lia.
  - reflexivity.
  - reflexivity.
  - by vm_compute.
  - by vm_compute.
Defined.

Lemma setSearch_matches_in_order_witness :
  repl_reachable ∅ ∧ 0 ≤ 0
  ∧ ∃ repl' m' item' ms,
      ClipboardModel.setSearch_row ∅ (ClipboardModel.create ["a<b a"]%string) 0
        (Some (Regex.Chr "a")) = Done (repl', m')
      ∧ ClipboardModel.m_clipboardList m' !! Z.to_nat 0 = Some item'
      ∧ successive (Regex.Chr "a") "a<b a" 0 ms
      ∧ ms ≠ []
      ∧ ClipboardItem.highlighted item' = spec_highlight "a<b a" ms
      ∧ in_order (QString.length "a<b a") 0 ms
      ∧ Z.of_nat (length ms) ≤ QString.length "a<b a".
Proof.
  split; [apply repl_initial|]. split; [lia|].
  apply (setSearch_matches_in_order (E := Regex.engine) ∅
           (ClipboardModel.create ["a<b a"]%string) 0 (Regex.Chr "a")
           (ClipboardItem.of_string "a<b a")).
  - apply repl_initial.
  - lia.
  - reflexivity.
  - reflexivity.
  - by vm_compute.
  - by vm_compute.
Defined.

(** ** One row up or down, and searching twice *)

Section More_steps.
Context {E : QRegExp.Engine}.
Import ClipboardModel.
Implicit Types (m : ClipboardModel.t).

(** X25. With one row selected, [Key_Up] on row [r + 1] and
    [Key_Down] on row [r] both exchange rows [r] and [r + 1] and leave
    the other rows where they are; [Key_Up] returns true exactly when
    the row went to the top ([r = 0]), [Key_Down] returns false. *)
Theorem moveItems_step m (l1 l2 : list ClipboardItem.t) (a b : ClipboardItem.t)
    (up down : QModelIndex) :
  m_clipboardList m = l1 ++ a :: b :: l2 →
  row up = Z.of_nat (length l1) + 1 →
  row down = Z.of_nat (length l1) →
  moveItems m [up] Qt.Key_Up
  = Done (with_list m (l1 ++ b :: a :: l2), Z.of_nat (length l1) =? 0)
  ∧ moveItems m [down] Qt.Key_Down
    = Done (with_list m (l1 ++ b :: a :: l2), false).
Proof.
  intros Hl Hup Hdown.
  destruct (move_swap m l1 l2 a b Hl) as [Hmove_down Hmove_up].
  unfold moveItems. simpl qSort. cbn [length moveItems_loop].
  change ((Qt.Key_Up =? Qt.Key_Down) || (Qt.Key_Up =? Qt.Key_End)) with false.
  change ((Qt.Key_Down =? Qt.Key_Down) || (Qt.Key_Down =? Qt.Key_End)) with true.
  change (Qt.Key_Up =? Qt.Key_Down) with false.
  change (Qt.Key_Up =? Qt.Key_Up) with true.
  change (Qt.Key_Down =? Qt.Key_Down) with true.
  cbv iota.
  change (QList.at_ [up] 0) with (Done up).
  change (QList.at_ [down] (QList.size [down] - 1 - 0)) with (Done down).
  rewrite !bind_Done, Hup, Hdown.
  replace (Z.of_nat (length l1) + 1 - 1) with (Z.of_nat (length l1)) by lia.
  rewrite Hmove_up, Hmove_down, !bind_Done. simpl.
  split; [done|].
  by destruct (Z.eqb_spec (Z.of_nat (length l1) + 1) 0); [lia|].
Qed.

(** X26. Searching twice for the same thing is searching once: after
    [setSearch(re)], a second [setSearch(re)] with the same expression
    (one that is equal to itself under [operator==]), or a second
    clearing, changes nothing. *)
Theorem setSearch_twice (repl : Repl) m (re : option QRegExp.t) :
  repl_reachable repl →
  (∀ r, re = Some r → QRegExp.eqb r r = true) →
  ∃ repl' m',
    setSearch repl m re = Done (repl', m')
    ∧ setSearch repl' m' re = Done (repl', m').
Proof.
  intros Hr Hrefl.
  destruct (setSearch_spec repl m re Hr) as [Hsame Hnew].
  destruct (match re with
            | None => QRegExp.isEmpty (m_re m)
            | Some re => QRegExp.eqb (m_re m) re
            end) eqn:Hcase.
  - exists repl, m. by rewrite Hsame.
  - destruct (Hnew eq_refl) as (repl' & l' & Hrun & Hr' & _ & _).
    eexists repl', _. split; [exact Hrun|].
    apply (setSearch_spec repl' _ re Hr'). simpl.
    destruct re as [r|]; simpl; [by apply Hrefl|apply QRegExp.null_isEmpty].
Qed.

End More_steps.

Lemma moveItems_step_witness :
  ClipboardModel.m_clipboardList abc
  = [] ++ ClipboardItem.of_string "a" :: ClipboardItem.of_string "b"
          :: [ClipboardItem.of_string "c"]
  ∧ row (row_index 1) = Z.of_nat (length (@nil ClipboardItem.t)) + 1
  ∧ row (row_index 0) = Z.of_nat (length (@nil ClipboardItem.t))
  ∧ ClipboardModel.moveItems abc [row_index 1] Qt.Key_Up
    = Done (ClipboardModel.with_list abc
              (ClipboardItem.of_string <$> ["b"; "a"; "c"]%string), true)
  ∧ ClipboardModel.moveItems abc [row_index 0] Qt.Key_Down
    = Done (ClipboardModel.with_list abc
              (ClipboardItem.of_string <$> ["b"; "a"; "c"]%string), false).
Proof.
  split; [reflexivity|]. split; [reflexivity|]. split; [reflexivity|].
  exact (moveItems_step abc [] [ClipboardItem.of_string "c"]
           (ClipboardItem.of_string "a") (ClipboardItem.of_string "b")
           (row_index 1) (row_index 0) eq_refl eq_refl eq_refl).
Defined.

Lemma setSearch_twice_witness :
  repl_reachable ∅
  ∧ (∀ r, Some (Regex.Chr "b") = Some r → QRegExp.eqb r r = true)
  ∧ ∃ repl' m',
      ClipboardModel.setSearch ∅ abc (Some (Regex.Chr "b")) = Done (repl', m')
      ∧ ClipboardModel.setSearch repl' m' (Some (Regex.Chr "b")) = Done (repl', m').
Proof.
  assert (∀ r, Some (Regex.Chr "b") = Some r → QRegExp.eqb r r = true) as H.
  { intros r [= <-]. reflexivity. }
  split; [apply repl_initial|]. split; [exact H|].
  exact (setSearch_twice (E := Regex.engine) ∅ abc (Some (Regex.Chr "b"))
           repl_initial H).
Defined.
